(** * Anti-spam membership subsystem: a shallow embedding

    The development follows the TypeScript sources:
    - [src/domain/value-objects/email.ts]                         (module [Email])
    - [src/infrastructure/repositories/valkey-banned-email.repository.ts]
    - [src/infrastructure/repositories/in-memory-banned-email.repository.ts]
    - [src/infrastructure/external-services/repository-anti-spam.adapter.ts]

    JavaScript strings are sequences of UTF-16 code units.  They are embedded
    as [string], every [ascii] standing for one code unit below 256 (the
    Latin-1 block): [length], [trim], [toLowerCase], [includes], [split] and
    the regular expression are interpreted on that range exactly as
    ECMAScript defines them. *)

From Stdlib Require Import Ascii String List Bool Arith Lia.
From stdpp Require Import base option list strings gmap.

Local Open Scope string_scope.
Local Arguments String.append !_ _ / : simpl nomatch.

(** ** JavaScript string primitives *)

Module Js.

(** [WhiteSpace] and [LineTerminator] code points below 256: TAB, LF, VT,
    FF, CR, SPACE and NO-BREAK SPACE.  This is the set stripped by
    [String.prototype.trim] and matched by the class escape [\s]. *)
Definition isWhiteSpace (c : ascii) : bool :=
  let n := nat_of_ascii c in
  (Nat.leb 9 n && Nat.leb n 13) || Nat.eqb n 32 || Nat.eqb n 160.

(** Simple case mapping on one code unit: A-Z, and the Latin-1 capitals
    U+00C0..U+00DE without the multiplication sign U+00D7. *)
Definition toLowerCaseUnit (c : ascii) : ascii :=
  let n := nat_of_ascii c in
  if (Nat.leb 65 n && Nat.leb n 90)
     || (Nat.leb 192 n && Nat.leb n 214)
     || (Nat.leb 216 n && Nat.leb n 222)
  then ascii_of_nat (n + 32) else c.

(** [s.toLowerCase()] *)
Fixpoint toLowerCase (s : string) : string :=
  match s with
  | EmptyString => EmptyString
  | String c s' => String (toLowerCaseUnit c) (toLowerCase s')
  end.

(** [s.trimStart()] *)
Fixpoint trimStart (s : string) : string :=
  match s with
  | EmptyString => EmptyString
  | String c s' => if isWhiteSpace c then trimStart s' else s
  end.

(** [s.trimEnd()] *)
Fixpoint trimEnd (s : string) : string :=
  match s with
  | EmptyString => EmptyString
  | String c s' =>
      match trimEnd s' with
      | EmptyString => if isWhiteSpace c then EmptyString else String c EmptyString
      | t => String c t
      end
  end.

(** [s.trim()] *)
Definition trim (s : string) : string := trimEnd (trimStart s).

(** [s.startsWith(p)] *)
Fixpoint startsWith (s p : string) : bool :=
  match p, s with
  | EmptyString, _ => true
  | String _ _, EmptyString => false
  | String a p', String b s' => if ascii_dec a b then startsWith s' p' else false
  end.

(** [s.includes(p)] *)
Fixpoint includes (s p : string) : bool :=
  startsWith s p ||
  match s with
  | EmptyString => false
  | String _ s' => includes s' p
  end.

(** [s.split(sep)] for a separator of one code unit. *)
Fixpoint split (sep : ascii) (s : string) : list string :=
  match s with
  | EmptyString => [EmptyString]
  | String c s' =>
      if ascii_dec c sep then EmptyString :: split sep s'
      else match split sep s' with
           | [] => [String c EmptyString]
           | piece :: rest => String c piece :: rest
           end
  end.

(** [s.repeat(n)] *)
Fixpoint repeat (s : string) (n : nat) : string :=
  match n with
  | O => EmptyString
  | S n' => s ++ repeat s n'
  end.

(** Every code unit of [s] satisfies [f]. *)
Fixpoint every (f : ascii -> bool) (s : string) : bool :=
  match s with
  | EmptyString => true
  | String c s' => f c && every f s'
  end.

(** Every code unit of [s] is white space. *)
Definition allWhiteSpace (s : string) : bool := every isWhiteSpace s.

(** No code unit of [s] is white space. *)
Definition noWhiteSpace (s : string) : bool := every (fun c => negb (isWhiteSpace c)) s.

(** The code units of [s], as numbers. *)
Fixpoint units (s : string) : list N :=
  match s with
  | EmptyString => []
  | String c s' => N_of_ascii c :: units s'
  end.

(** Upper-casing of one code unit below 256.  The result can leave that
    range (U+00FF gives U+0178, the micro sign U+00B5 gives U+039C) or take
    two units (U+00DF gives "SS"), so it is given as code units. *)
Definition toUpperCaseUnit (c : ascii) : list N :=
  let n := N_of_ascii c in
  if (N.leb 97 n && N.leb n 122)
     || (N.leb 224 n && N.leb n 246)
     || (N.leb 248 n && N.leb n 254)
  then [(n - 32)%N]
  else if N.eqb n 223 then [83%N; 83%N]
  else if N.eqb n 255 then [376%N]
  else if N.eqb n 181 then [924%N]
  else [n].

(** [s.toUpperCase()], as code units. *)
Fixpoint toUpperCase (s : string) : list N :=
  match s with
  | EmptyString => []
  | String c s' => toUpperCaseUnit c ++ toUpperCase s'
  end.

(** [Array.from(s)] for a string of code units below 256: one string per
    code unit. *)
Fixpoint Array_from (s : string) : list string :=
  match s with
  | EmptyString => []
  | String c s' => String c EmptyString :: Array_from s'
  end.

End Js.

(** ** Regular expressions

    The fragment of the ECMAScript pattern language used by [EMAIL_REGEX]:
    literal characters, character classes (possibly negated, with the class
    escape [\s]), concatenation and the quantifiers [+] and [*].  For a
    pattern anchored as [^...$] without flags, [RegExp.prototype.test]
    decides membership of the whole input in the language of the pattern;
    the matcher below decides it with Brzozowski derivatives. *)

Module RegExp.

Inductive ClassAtom : Type :=
| ClassChar (c : ascii)        (* a literal member, as in [@] *)
| ClassSpace.                  (* the escape \s *)

Inductive Pattern : Type :=
| Never                                              (* matches nothing *)
| Empty                                              (* matches the empty string *)
| Char (c : ascii)                                   (* x, or an escaped \. *)
| Class (negated : bool) (atoms : list ClassAtom)    (* [...] and [^...] *)
| Seq (p q : Pattern)                                (* pq *)
| Alt (p q : Pattern)                                (* p|q *)
| Star (p : Pattern)                                 (* p* *)
| Plus (p : Pattern).                                (* p+ *)

Definition atomMatches (a : ClassAtom) (c : ascii) : bool :=
  match a with
  | ClassChar d => if ascii_dec d c then true else false
  | ClassSpace => Js.isWhiteSpace c
  end.

Definition classMatches (negated : bool) (atoms : list ClassAtom) (c : ascii) : bool :=
  xorb negated (existsb (fun a => atomMatches a c) atoms).

Fixpoint nullable (p : Pattern) : bool :=
  match p with
  | Never => false
  | Empty => true
  | Char _ => false
  | Class _ _ => false
  | Seq p q => nullable p && nullable q
  | Alt p q => nullable p || nullable q
  | Star _ => true
  | Plus p => nullable p
  end.

Fixpoint derive (c : ascii) (p : Pattern) : Pattern :=
  match p with
  | Never => Never
  | Empty => Never
  | Char d => if ascii_dec d c then Empty else Never
  | Class negated atoms => if classMatches negated atoms c then Empty else Never
  | Seq p q =>
      if nullable p then Alt (Seq (derive c p) q) (derive c q)
      else Seq (derive c p) q
  | Alt p q => Alt (derive c p) (derive c q)
  | Star p => Seq (derive c p) (Star p)
  | Plus p => Seq (derive c p) (Star p)
  end.

(** [/^p$/.test(s)] *)
Fixpoint test (p : Pattern) (s : string) : bool :=
  match s with
  | EmptyString => nullable p
  | String c s' => test (derive c p) s'
  end.

(** The language of a pattern, as a relation. *)
Inductive Matches : Pattern -> string -> Prop :=
| MEmpty : Matches Empty ""
| MChar c : Matches (Char c) (String c "")
| MClass negated atoms c :
    classMatches negated atoms c = true ->
    Matches (Class negated atoms) (String c "")
| MSeq p q s t : Matches p s -> Matches q t -> Matches (Seq p q) (s ++ t)
| MAltL p q s : Matches p s -> Matches (Alt p q) s
| MAltR p q s : Matches q s -> Matches (Alt p q) s
| MStarNil p : Matches (Star p) ""
| MStarCons p s t : Matches p s -> Matches (Star p) t -> Matches (Star p) (s ++ t)
| MPlus p s t : Matches p s -> Matches (Star p) t -> Matches (Plus p) (s ++ t).

End RegExp.

(** ** Completions and asynchronous computations

    A call either returns normally or throws; for an [async] function these
    are the fulfilled and the rejected promise.  An awaited computation is a
    function from the state of the world it runs in to its completion and the
    state it leaves behind. *)

(** A thrown [Error]: only its message is observable here. *)
Record Error : Type := mkError { message : string }.

Inductive Completion (A : Type) : Type :=
| Normal (a : A)
| Throw (e : Error).
Arguments Normal {A} a.
Arguments Throw {A} e.

Definition Async (St A : Type) : Type := St -> Completion A * St.

Global Instance async_ret {St} : MRet (Async St) :=
  fun A (a : A) st => (Normal a, st).

Global Instance async_bind {St} : MBind (Async St) :=
  fun A B (k : A -> Async St B) (m : Async St A) st =>
    match m st with
    | (Normal a, st') => k a st'
    | (Throw e, st') => (Throw e, st')
    end.

(** [throw e] *)
Definition throw {St A} (e : Error) : Async St A :=
  fun st => (Throw e, st).

(** [try { body } catch (error) { handler }] *)
Definition tryCatch {St A} (body : Async St A) (handler : Error -> Async St A) : Async St A :=
  fun st =>
    match body st with
    | (Normal a, st') => (Normal a, st')
    | (Throw e, st') => handler e st'
    end.

(** A synchronous completion used inside an [async] function. *)
Definition completed {St A} (c : Completion A) : Async St A :=
  fun st => (c, st).

(** ** The membership store *)

Module Valkey.

(** A [GlideString] is a [string] or a [Buffer]. *)
Inductive GlideString : Type :=
| GString (s : string)
| GBuffer (bytes : list ascii).

(** Modelled from the spec: the store protocol of section 6, which the
    sources only import from [@valkey/valkey-glide].  The store is a
    key-addressed collection of sets of strings; a client whose [fault] is
    set cannot reach it, and every request then rejects with that error
    and leaves the store as it is. *)
Record GlideClient : Type := mkClient {
  keyspace : gmap string (gset string);
  fault : option Error
}.

(** Modelled from the spec: the set held under [key]; a missing key is the
    empty set. *)
Definition setAt (key : string) (ks : gmap string (gset string)) : gset string :=
  default ∅ (ks !! key).

(** Modelled from the spec: writing a set back; the store keeps no empty
    set. *)
Definition putSet (key : string) (X : gset string) (ks : gmap string (gset string))
  : gmap string (gset string) :=
  if decide (X = ∅) then delete key ks else <[key := X]> ks.

(** Modelled from the spec: one round trip to the store. *)
Definition request {A} (command : gmap string (gset string) -> A * gmap string (gset string))
  : Async GlideClient A :=
  fun client =>
    match fault client with
    | Some e => (Throw e, client)
    | None =>
        let '(reply, ks) := command (keyspace client) in
        (Normal reply, mkClient ks None)
    end.

(** Modelled from the spec: membership test, [SISMEMBER key member]. *)
Definition sismember (key member : string) : Async GlideClient bool :=
  request (fun ks => (bool_decide (member ∈ setAt key ks), ks)).

(** Modelled from the spec: add-member, [SADD key members], replying the
    number of members added. *)
Definition sadd (key : string) (members : list string) : Async GlideClient nat :=
  request (fun ks =>
    let X := setAt key ks in
    let X' := X ∪ list_to_set members in
    (size X' - size X, putSet key X' ks)).

(** Modelled from the spec: remove-member, [SREM key members], replying the
    number of members removed. *)
Definition srem (key : string) (members : list string) : Async GlideClient nat :=
  request (fun ks =>
    let X := setAt key ks in
    let X' := X ∖ list_to_set members in
    (size X - size X', putSet key X' ks)).

(** Modelled from the spec: enumerate-members, [SMEMBERS key], decoded as
    strings. *)
Definition smembers (key : string) : Async GlideClient (list GlideString) :=
  request (fun ks => (GString <$> elements (setAt key ks), ks)).

(** Modelled from the spec: delete-key, [DEL keys], replying the number of
    keys removed. *)
Definition del (keys : list string) : Async GlideClient nat :=
  request (fun ks =>
    (length (filter (fun k => is_Some (ks !! k)) (remove_dups keys)),
     foldr delete ks keys)).

End Valkey.

(** ** The repository port and its two implementations *)

(** [BannedEmailRepository] (domain port), for an implementation whose
    mutable state has type [St]. *)
Record BannedEmailRepository (St : Type) : Type := {
  isBanned : string -> Async St bool;
  ban : string -> Async St unit;
  unban : string -> Async St unit;
  getAllBanned : Async St (list string);
  clear : Async St unit
}.
Arguments isBanned {St} _ _ _.
Arguments ban {St} _ _ _.
Arguments unban {St} _ _ _.
Arguments getAllBanned {St} _ _.
Arguments clear {St} _ _.

(** The default of the constructor's [setKey] parameter. *)
Definition DEFAULT_SET_KEY : string := "banned:emails".

(** [typeof email === 'string'] as a filter on [GlideString]s. *)
Definition stringsOnly (members : list Valkey.GlideString) : list string :=
  omap (fun m => match m with
                 | Valkey.GString s => Some s
                 | Valkey.GBuffer _ => None
                 end) members.

(** [new ValkeyBannedEmailRepository(valkey, setKey)]; the client [valkey]
    is the state the methods run in. *)
Definition ValkeyBannedEmailRepository (setKey : string)
  : BannedEmailRepository Valkey.GlideClient :=
  {| isBanned email :=
       result ← Valkey.sismember setKey (Js.toLowerCase email);
       mret (negb (negb result));
     ban email :=
       _ ← Valkey.sadd setKey [Js.toLowerCase email];
       mret tt;
     unban email :=
       _ ← Valkey.srem setKey [Js.toLowerCase email];
       mret tt;
     getAllBanned :=
       members ← Valkey.smembers setKey;
       mret (Js.toLowerCase <$> stringsOnly members);
     clear :=
       _ ← Valkey.del [setKey];
       mret tt |}.

Definition notImplemented : Error := mkError "Method not implemented.".

(** [new InMemoryBannedEmailRepository()]; the state is the private field
    [bannedEmails]. *)
Definition InMemoryBannedEmailRepository : BannedEmailRepository (gset string) :=
  {| isBanned email := throw notImplemented;
     ban email := throw notImplemented;
     unban email := throw notImplemented;
     getAllBanned := throw notImplemented;
     clear := fun bannedEmails => (Normal tt, ∅) |}.

(** ** The anti-spam gate ([repository-anti-spam.adapter.ts]) *)

(** [AntiSpamPort] (domain port): [isBlocked(email: string): Promise<boolean>]. *)
Record AntiSpamPort (St : Type) : Type := {
  isBlocked : string -> Async St bool
}.
Arguments isBlocked {St} _ _ _.

(** What the adapter runs in: the console it reports to and the state of the
    repository it was given. *)
Record World (R : Type) : Type := mkWorld {
  console : list (string * Error);
  repository : R
}.
Arguments mkWorld {R} _ _.
Arguments console {R} _.
Arguments repository {R} _.

(** A repository call made from the adapter. *)
Definition viaRepository {R A} (call : Async R A) : Async (World R) A :=
  fun w =>
    let '(c, r) := call (repository w) in
    (c, mkWorld (console w) r).

(** [console.error(label, error)] *)
Definition console_error {R} (label : string) (error : Error) : Async (World R) unit :=
  fun w => (Normal tt, mkWorld (console w ++ [(label, error)]) (repository w)).

(** [new RepositoryAntiSpamAdapter(bannedEmailRepository)] *)
Definition RepositoryAntiSpamAdapter {R} (bannedEmailRepository : BannedEmailRepository R)
  : AntiSpamPort (World R) :=
  {| isBlocked email :=
       tryCatch
         (viaRepository (isBanned bannedEmailRepository email))
         (fun error =>
            _ ← console_error "Failed to check banned email list:" error;
            mret false) |}.

(** ** The validated email identity ([email.ts]) *)

(** Modelled from the spec: the base class [ValueObject<string>] of
    [shared/types/common.ts] is not among the sources.  An [Email] is an
    immutable value holding one string, its [value]. *)
Record EmailObject : Type := mkEmail { value : string }.

Module Email.
Import RegExp.

(** [[^\s@]] *)
Definition notSpaceNorAt : Pattern := Class true [ClassSpace; ClassChar "@"].

(** [EMAIL_REGEX = /^[^\s@]+@[^\s@]+\.[^\s@]+$/] *)
Definition EMAIL_REGEX : Pattern :=
  Seq (Plus notSpaceNorAt)
    (Seq (Char "@")
       (Seq (Plus notSpaceNorAt)
          (Seq (Char ".") (Plus notSpaceNorAt)))).

Definition hasConsecutiveDots (email : string) : bool :=
  Js.includes email "..".

Definition isValid (email : string) : bool :=
  Nat.ltb 0 (String.length email) &&
  Nat.leb (String.length email) 254 &&
  negb (hasConsecutiveDots email) &&
  RegExp.test EMAIL_REGEX email.

(** [new Email(email)] *)
Definition constructor (email : string) : Completion EmailObject :=
  let normalizedEmail := Js.trim email in
  if negb (isValid normalizedEmail)
  then Throw (mkError ("Invalid email format: " ++ email))
  else Normal (mkEmail (Js.toLowerCase normalizedEmail)).

(** [Email.create(email)] *)
Definition create (email : string) : Completion EmailObject :=
  constructor email.

(** [Email.createWithAntiSpam(email, antiSpamService)] *)
Definition createWithAntiSpam {St} (email : string) (antiSpamService : AntiSpamPort St)
  : Async St EmailObject :=
  blocked ← isBlocked antiSpamService email;
  if (blocked : bool)
  then throw (mkError ("Email is blocked or blacklisted: " ++ email))
  else completed (constructor email).

(** [email.getDomain()]: [None] stands for [undefined]. *)
Definition getDomain (this : EmailObject) : option string :=
  Js.split "@" (value this) !! 1.

(** [email.getUserPart()] *)
Definition getUserPart (this : EmailObject) : option string :=
  Js.split "@" (value this) !! 0.

End Email.

(** ** Vocabulary of the specification *)

(** The two typed rejections of identity construction, as the errors the
    constructors throw. *)
Definition InvalidFormat (input : string) : Error :=
  mkError ("Invalid email format: " ++ input).

Definition Blocked (input : string) : Error :=
  mkError ("Email is blocked or blacklisted: " ++ input).

(** The BannedSet a Valkey repository with key [setKey] sees through
    [client]. *)
Definition bannedSet (setKey : string) (client : Valkey.GlideClient) : gset string :=
  Valkey.setAt setKey (Valkey.keyspace client).

(** The invariant of the BannedSet as the code maintains it: every member is
    its own lower-cased form. *)
Definition allLowerCased (X : gset string) : Prop :=
  forall m, m ∈ X -> Js.toLowerCase m = m.

(** One call on the repository port. *)
Inductive Call : Type :=
| CallIsBanned (email : string)
| CallBan (email : string)
| CallUnban (email : string)
| CallGetAllBanned
| CallClear.

(** The state a call leaves behind, its completion dropped. *)
Definition after {St} (repo : BannedEmailRepository St) (c : Call) (st : St) : St :=
  match c with
  | CallIsBanned email => snd (isBanned repo email st)
  | CallBan email => snd (ban repo email st)
  | CallUnban email => snd (unban repo email st)
  | CallGetAllBanned => snd (getAllBanned repo st)
  | CallClear => snd (clear repo st)
  end.

(** The state after a sequence of calls, the first call first. *)
Definition afterAll {St} (repo : BannedEmailRepository St) (calls : list Call) (st : St) : St :=
  fold_left (fun s c => after repo c s) calls st.

(** The calls of [calls] that ban an address. *)
Definition bannedBy (calls : list Call) : list string :=
  omap (fun c => match c with CallBan email => Some email | _ => None end) calls.

(** [n] successive calls of [ban email]. *)
Definition banTimes {St} (repo : BannedEmailRepository St) (n : nat) (email : string) (st : St) : St :=
  afterAll repo (replicate n (CallBan email)) st.

(** The test "this code unit is not [sep]". *)
Definition differsFrom (sep c : ascii) : bool :=
  if ascii_dec c sep then false else true.

(** The code units [[^\s@]] admits. *)
Definition addressUnit (c : ascii) : bool :=
  RegExp.classMatches true [RegExp.ClassSpace; RegExp.ClassChar "@"] c.

(** The domain part of an address, as [getDomain] takes it. *)
Definition domainPart (s : string) : option string := Js.split "@" s !! 1.

(** The inputs that must be rejected: no [@], no dot in the domain part, two
    consecutive dots, nothing at all, or more than 254 code units once
    trimmed. *)
Definition Malformed (input : string) : Prop :=
  Js.includes input "@" = false
  \/ (exists d, domainPart input = Some d /\ Js.includes d "." = false)
  \/ Js.includes input ".." = true
  \/ String.length input = 0
  \/ 254 < String.length (Js.trim input).

(** A client connected to an empty store. *)
Definition freshClient : Valkey.GlideClient := Valkey.mkClient ∅ None.

(** ** The other classes of the sources *)

(** [emailValidatorServiceAllowsNamesA_K]: a validator over identities. *)
Module emailValidatorServiceAllowsNamesA_K.

(** [this.allowedInitials = new Set(Array.from('ABCDEFGHIJK'))], each member
    by its code units. *)
Definition allowedInitials : gset (list N) :=
  list_to_set (Js.units <$> Js.Array_from "ABCDEFGHIJK").

(** What calling [toUpperCase] on [undefined] throws. *)
Definition typeError : Error :=
  mkError "Cannot read properties of undefined (reading 'toUpperCase')".

(** [isValid(email)] *)
Definition isValid (email : EmailObject) : Completion bool :=
  match Email.getUserPart email with
  | Some userPart =>
      let firstLetter := Js.toUpperCase userPart in
      Normal (bool_decide (firstLetter ∈ allowedInitials))
  | None => Throw typeError
  end.

End emailValidatorServiceAllowsNamesA_K.

(** An [EmailWithoutSpan] object: its two private fields. *)
Record EmailWithoutSpanObject (St : Type) : Type := mkEmailWithoutSpan {
  _value : string;
  _antiSpamPort : AntiSpamPort St
}.
Arguments mkEmailWithoutSpan {St} _ _.
Arguments _value {St} _.
Arguments _antiSpamPort {St} _.

Module EmailWithoutSpan.

(** [new EmailWithoutSpan(email, antiSpamPort)] *)
Definition constructor {St} (email : string) (antiSpamPort : AntiSpamPort St)
  : EmailWithoutSpanObject St :=
  mkEmailWithoutSpan (Js.toLowerCase email) antiSpamPort.

(** [this.isValid()] *)
Definition isValid {St} (this : EmailWithoutSpanObject St) : Async St bool :=
  isBlocked (_antiSpamPort this) (_value this).

(** [EmailWithoutSpan.isValid(email)], the static method. *)
Definition isValid_static {St} (email : string) : Async St bool :=
  throw (mkError "Method not implemented.").

(** [EmailWithoutSpan.create(email, mockAdapter)] *)
Definition create {St} (email : string) (mockAdapter : AntiSpamPort St)
  : Async St (EmailWithoutSpanObject St) :=
  mret (constructor email mockAdapter).

(** [this.getValue()] *)
Definition getValue {St} (this : EmailWithoutSpanObject St) : string :=
  _value this.

End EmailWithoutSpan.

(** [new MockAntiSpamAdapter(blockedEmails)], the test double of the
    [EmailWithoutSpan] tests: it holds [new Set(blockedEmails)] and touches
    no state. *)
Definition MockAntiSpamAdapter {St} (blockedEmails : list string) : AntiSpamPort St :=
  let blockedEmails : gset string := list_to_set blockedEmails in
  {| isBlocked email := mret (bool_decide (email ∈ blockedEmails)) |}.

(** A call that cannot take [x] out of the BannedSet: anything but [clear]
    and an [unban] of an address that lower-cases to the same. *)
Definition keeps (x : string) (c : Call) : Prop :=
  match c with
  | CallUnban email => Js.toLowerCase email <> Js.toLowerCase x
  | CallClear => False
  | _ => True
  end.

(** The strings [local@left.right] whose three pieces are non-empty and hold
    neither white space nor [@]. *)
Definition AddressShape (s : string) : Prop :=
  exists l d t,
    s = l ++ "@" ++ d ++ "." ++ t
    /\ l <> "" /\ d <> "" /\ t <> ""
    /\ Js.every addressUnit l = true
    /\ Js.every addressUnit d = true
    /\ Js.every addressUnit t = true.

(** The letters a to k, in either case. *)
Definition letterAK (c : ascii) : bool :=
  let n := N_of_ascii c in
  (N.leb 65 n && N.leb n 75) || (N.leb 97 n && N.leb n 107).

(** * Properties *)

(** ** Strings *)

Section StringFacts.

Lemma append_empty_r (s : string) : s ++ "" = s.
Proof. induction s as [|c s IH]; cbn; [reflexivity | now rewrite IH]. Qed.

Lemma append_assoc (s t u : string) : (s ++ t) ++ u = s ++ (t ++ u).
Proof. induction s as [|c s IH]; cbn; [reflexivity | now rewrite IH]. Qed.

Lemma append_eq_empty (s t : string) : s ++ t = "" -> s = "" /\ t = "".
Proof. destruct s; cbn; [auto | discriminate]. Qed.

Lemma every_append f (s t : string) :
  Js.every f (s ++ t) = Js.every f s && Js.every f t.
Proof.
  induction s as [|c s IH]; cbn; [reflexivity |].
  now rewrite IH, andb_assoc.
Qed.

Lemma every_impl (f g : ascii -> bool) (s : string) :
  (forall c, f c = true -> g c = true) -> Js.every f s = true -> Js.every g s = true.
Proof.
  intros Hfg. induction s as [|c s IH]; cbn; [reflexivity |].
  intros [Hc Hs]%andb_true_iff. rewrite (Hfg _ Hc), (IH Hs). reflexivity.
Qed.

(** *** Lower-casing *)

Lemma toLowerCaseUnit_idem (c : ascii) :
  Js.toLowerCaseUnit (Js.toLowerCaseUnit c) = Js.toLowerCaseUnit c.
Proof. destruct c as [[] [] [] [] [] [] [] []]; reflexivity. Qed.

Lemma isWhiteSpace_toLowerCaseUnit (c : ascii) :
  Js.isWhiteSpace (Js.toLowerCaseUnit c) = Js.isWhiteSpace c.
Proof. destruct c as [[] [] [] [] [] [] [] []]; reflexivity. Qed.

Lemma toLowerCase_idem (s : string) :
  Js.toLowerCase (Js.toLowerCase s) = Js.toLowerCase s.
Proof.
  induction s as [|c s IH]; cbn; [reflexivity |].
  now rewrite toLowerCaseUnit_idem, IH.
Qed.

Lemma toLowerCase_append (s t : string) :
  Js.toLowerCase (s ++ t) = Js.toLowerCase s ++ Js.toLowerCase t.
Proof. induction s as [|c s IH]; cbn; [reflexivity | now rewrite IH]. Qed.

(** *** Trimming *)

Lemma trimStart_white (w : string) :
  Js.allWhiteSpace w = true -> Js.trimStart w = "".
Proof.
  induction w as [|c w IH]; cbn; [reflexivity |].
  intros [Hc Hw]%andb_true_iff. rewrite Hc. auto.
Qed.

Lemma trimEnd_white (w : string) :
  Js.allWhiteSpace w = true -> Js.trimEnd w = "".
Proof.
  induction w as [|c w IH]; cbn; [reflexivity |].
  intros [Hc Hw]%andb_true_iff. rewrite (IH Hw), Hc. reflexivity.
Qed.

Lemma trimStart_append_white (w s : string) :
  Js.allWhiteSpace w = true -> Js.trimStart (w ++ s) = Js.trimStart s.
Proof.
  induction w as [|c w IH]; cbn; [reflexivity |].
  intros [Hc Hw]%andb_true_iff. rewrite Hc. auto.
Qed.

Lemma trimEnd_append_white (s w : string) :
  Js.allWhiteSpace w = true -> Js.trimEnd (s ++ w) = Js.trimEnd s.
Proof.
  intros Hw. induction s as [|c s IH]; cbn.
  - now apply trimEnd_white.
  - now rewrite IH.
Qed.

Lemma trim_append_white_r (s w : string) :
  Js.allWhiteSpace w = true -> Js.trim (s ++ w) = Js.trim s.
Proof.
  intros Hw. unfold Js.trim. induction s as [|c s IH]; cbn.
  - now rewrite trimStart_white.
  - destruct (Js.isWhiteSpace c); [exact IH |].
    change (String c (s ++ w)) with (String c s ++ w).
    now apply trimEnd_append_white.
Qed.

(** White space around a string does not survive [trim]. *)
Lemma trim_surrounded (w1 s w2 : string) :
  Js.allWhiteSpace w1 = true -> Js.allWhiteSpace w2 = true ->
  Js.trim (w1 ++ s ++ w2) = Js.trim s.
Proof.
  intros H1 H2. unfold Js.trim. rewrite trimStart_append_white by assumption.
  now apply trim_append_white_r.
Qed.

Lemma trimStart_decompose (s : string) :
  exists w, s = w ++ Js.trimStart s /\ Js.allWhiteSpace w = true.
Proof.
  induction s as [|c s (w & Hs & Hw)]; cbn.
  - now exists "".
  - destruct (Js.isWhiteSpace c) eqn:Hc.
    + exists (String c w). cbn. unfold Js.allWhiteSpace in *. cbn.
      rewrite Hc, Hw. now rewrite <- Hs.
    + now exists "".
Qed.

Lemma trimEnd_decompose (s : string) :
  exists w, s = Js.trimEnd s ++ w /\ Js.allWhiteSpace w = true.
Proof.
  induction s as [|c s (w & Hs & Hw)]; cbn.
  - now exists "".
  - destruct (Js.trimEnd s) as [|d t] eqn:Ht.
    + cbn in Hs. subst s. destruct (Js.isWhiteSpace c) eqn:Hc.
      * exists (String c w). unfold Js.allWhiteSpace in *. cbn. now rewrite Hc, Hw.
      * now exists w.
    + exists w. cbn. now rewrite Hs at 1.
Qed.

(** [trim] removes a run of white space at each end and nothing else. *)
Lemma trim_decompose (s : string) :
  exists w1 w2, s = w1 ++ Js.trim s ++ w2
                /\ Js.allWhiteSpace w1 = true /\ Js.allWhiteSpace w2 = true.
Proof.
  destruct (trimStart_decompose s) as (w1 & Hs & H1).
  destruct (trimEnd_decompose (Js.trimStart s)) as (w2 & Ht & H2).
  exists w1, w2. unfold Js.trim. now rewrite <- Ht, <- Hs.
Qed.

Lemma trimStart_head (s t : string) (c : ascii) :
  Js.trimStart s = String c t -> Js.isWhiteSpace c = false.
Proof.
  induction s as [|d s IH]; cbn; [discriminate |].
  destruct (Js.isWhiteSpace d) eqn:Hd; [exact IH |].
  intros E. injection E as <- _. exact Hd.
Qed.

Lemma trimEnd_head (s : string) (c : ascii) :
  Js.isWhiteSpace c = false -> exists t, Js.trimEnd (String c s) = String c t.
Proof. intros Hc. cbn. rewrite Hc. destruct (Js.trimEnd s); eauto. Qed.

Lemma trimEnd_last (s t : string) (c : ascii) :
  Js.trimEnd s = t ++ String c "" -> Js.isWhiteSpace c = false.
Proof.
  revert t. induction s as [|d s IH]; intros t; cbn.
  - destruct t; discriminate.
  - destruct (Js.trimEnd s) as [|e u] eqn:Hu.
    + destruct (Js.isWhiteSpace d) eqn:Hd.
      * destruct t; discriminate.
      * destruct t as [|a t]; cbn; intros E.
        -- injection E as <-. exact Hd.
        -- injection E as _ E. destruct t; discriminate E.
    + destruct t as [|a t]; cbn; intros E.
      * injection E as _ E. discriminate E.
      * injection E as _ E. exact (IH t E).
Qed.

(** What [trim] returns neither starts nor ends with white space. *)
Lemma trim_ends_not_white (s : string) :
  (forall c t, Js.trim s = String c t -> Js.isWhiteSpace c = false)
  /\ (forall c t, Js.trim s = t ++ String c "" -> Js.isWhiteSpace c = false).
Proof.
  unfold Js.trim. split; intros c t E.
  - destruct (Js.trimStart s) as [|d x] eqn:Hx; [discriminate E |].
    pose proof (trimStart_head s x d Hx) as Hd.
    destruct (trimEnd_head x d Hd) as (u & Hu). rewrite Hu in E.
    injection E as <- _. exact Hd.
  - exact (trimEnd_last _ t c E).
Qed.

Lemma trimStart_toLowerCase (s : string) :
  Js.trimStart (Js.toLowerCase s) = Js.toLowerCase (Js.trimStart s).
Proof.
  induction s as [|c s IH]; cbn; [reflexivity |].
  rewrite isWhiteSpace_toLowerCaseUnit. now destruct (Js.isWhiteSpace c).
Qed.

Lemma trimEnd_toLowerCase (s : string) :
  Js.trimEnd (Js.toLowerCase s) = Js.toLowerCase (Js.trimEnd s).
Proof.
  induction s as [|c s IH]; cbn; [reflexivity |].
  rewrite IH, isWhiteSpace_toLowerCaseUnit.
  destruct (Js.trimEnd s); cbn; [now destruct (Js.isWhiteSpace c) | reflexivity].
Qed.

Lemma trim_toLowerCase (s : string) :
  Js.trim (Js.toLowerCase s) = Js.toLowerCase (Js.trim s).
Proof. unfold Js.trim. now rewrite trimStart_toLowerCase, trimEnd_toLowerCase. Qed.

End StringFacts.

(** *** Searching and splitting *)

Section SearchFacts.

Lemma isWhiteSpace_noWhiteSpace_head (c d : ascii) (p : string) :
  Js.isWhiteSpace c = true -> Js.noWhiteSpace (String d p) = true -> d <> c.
Proof.
  unfold Js.noWhiteSpace. simpl. intros Hc [Hd _]%andb_true_iff ->.
  rewrite Hc in Hd. discriminate.
Qed.

Lemma startsWith_white_false (w p : string) :
  Js.allWhiteSpace w = true -> Js.noWhiteSpace p = true -> p <> "" ->
  Js.startsWith w p = false.
Proof.
  intros Hw Hp Hne. destruct p as [|d p]; [congruence |].
  destruct w as [|c w]; simpl; [reflexivity |].
  apply andb_true_iff in Hw as [Hc _].
  destruct (ascii_dec d c) as [E|]; [|reflexivity].
  now destruct (isWhiteSpace_noWhiteSpace_head c d p Hc Hp).
Qed.

Lemma startsWith_append_white (x w p : string) :
  Js.allWhiteSpace w = true -> Js.noWhiteSpace p = true ->
  Js.startsWith (x ++ w) p = Js.startsWith x p.
Proof.
  intros Hw. revert x. induction p as [|d p IH]; intros x Hp.
  - now destruct x, w.
  - destruct x as [|c x]; simpl.
    + now apply startsWith_white_false.
    + destruct (ascii_dec d c); [|reflexivity].
      apply IH. unfold Js.noWhiteSpace in *. simpl in Hp.
      now apply andb_true_iff in Hp.
Qed.

Lemma includes_white_false (w p : string) :
  Js.allWhiteSpace w = true -> Js.noWhiteSpace p = true -> p <> "" ->
  Js.includes w p = false.
Proof.
  intros Hw Hp Hne. induction w as [|c w IH].
  - destruct p; [congruence | reflexivity].
  - cbn [Js.includes]. rewrite startsWith_white_false by assumption.
    apply andb_true_iff in Hw as [_ Hw]. simpl. auto.
Qed.

Lemma includes_append_white_l (w s p : string) :
  Js.allWhiteSpace w = true -> Js.noWhiteSpace p = true -> p <> "" ->
  Js.includes (w ++ s) p = Js.includes s p.
Proof.
  intros Hw Hp Hne. induction w as [|c w IH]; simpl; [reflexivity |].
  apply andb_true_iff in Hw as [Hc Hw]. rewrite (IH Hw).
  destruct p as [|d p]; [congruence |].
  destruct (ascii_dec d c) as [E|]; [|reflexivity].
  now destruct (isWhiteSpace_noWhiteSpace_head c d p Hc Hp).
Qed.

Lemma includes_append_white_r (s w p : string) :
  Js.allWhiteSpace w = true -> Js.noWhiteSpace p = true -> p <> "" ->
  Js.includes (s ++ w) p = Js.includes s p.
Proof.
  intros Hw Hp Hne. induction s as [|c s IH].
  - simpl append. rewrite includes_white_false by assumption.
    destruct p; [congruence | reflexivity].
  - change (String c s ++ w) with (String c (s ++ w)).
    cbn [Js.includes]. rewrite IH.
    change (String c (s ++ w)) with (String c s ++ w).
    now rewrite startsWith_append_white.
Qed.

(** A pattern without white space occurs in a string exactly when it occurs
    in the trimmed string. *)
Lemma includes_trim (s p : string) :
  Js.noWhiteSpace p = true -> p <> "" ->
  Js.includes (Js.trim s) p = Js.includes s p.
Proof.
  intros Hp Hne. destruct (trim_decompose s) as (w1 & w2 & Hs & H1 & H2).
  rewrite Hs at 2.
  rewrite includes_append_white_l, includes_append_white_r by assumption.
  reflexivity.
Qed.

Lemma startsWith_empty (s : string) : Js.startsWith s "" = true.
Proof. now destruct s. Qed.

Lemma includes_unit_append (l r : string) (c : ascii) :
  Js.includes (l ++ String c r) (String c "") = true.
Proof.
  induction l as [|d l IH]; simpl.
  - destruct (ascii_dec c c); [now rewrite startsWith_empty | congruence].
  - rewrite IH. apply orb_true_r.
Qed.

Lemma split_without (sep : ascii) (s : string) :
  Js.every (differsFrom sep) s = true -> Js.split sep s = [s].
Proof.
  induction s as [|c s IH]; simpl; [reflexivity |].
  unfold differsFrom at 1. intros [Hc Hs]%andb_true_iff.
  destruct (ascii_dec c sep); [discriminate |]. now rewrite (IH Hs).
Qed.

Lemma split_append_sep (sep : ascii) (a b : string) :
  Js.every (differsFrom sep) a = true ->
  Js.split sep (a ++ String sep b) = a :: Js.split sep b.
Proof.
  induction a as [|c a IH]; simpl.
  - intros _. destruct (ascii_dec sep sep); [reflexivity | congruence].
  - unfold differsFrom at 1. intros [Hc Ha]%andb_true_iff.
    destruct (ascii_dec c sep); [discriminate |]. now rewrite (IH Ha).
Qed.

End SearchFacts.

(** ** The matcher decides the language of a pattern *)

Section RegExpFacts.
Import RegExp.

Lemma nullable_Matches_empty (p : Pattern) : nullable p = true -> Matches p "".
Proof.
  induction p; simpl; intros H; try discriminate.
  - constructor.
  - apply andb_true_iff in H as [H1 H2].
    change "" with ("" ++ ""). constructor; auto.
  - apply orb_true_iff in H as [H|H]; [apply MAltL | apply MAltR]; auto.
  - constructor.
  - change "" with ("" ++ ""). constructor; [auto | constructor].
Qed.

Lemma Matches_empty_nullable (p : Pattern) (s : string) :
  Matches p s -> s = "" -> nullable p = true.
Proof.
  induction 1; simpl; intros E; try discriminate; try reflexivity.
  - apply append_eq_empty in E as [-> ->]. now rewrite IHMatches1, IHMatches2.
  - now rewrite IHMatches.
  - rewrite IHMatches by assumption. apply orb_true_r.
  - apply append_eq_empty in E as [-> ->]. auto.
Qed.

Lemma Matches_derive (c : ascii) (p : Pattern) :
  forall s, Matches (derive c p) s -> Matches p (String c s).
Proof.
  induction p; simpl; intros s H.
  - inversion H.
  - inversion H.
  - destruct (ascii_dec c0 c); inversion H; subst. constructor.
  - destruct (classMatches negated atoms c) eqn:E; inversion H; subst.
    now constructor.
  - assert (Hseq : forall u, Matches (Seq (derive c p1) p2) u -> Matches (Seq p1 p2) (String c u)).
    { intros u Hu. inversion Hu; subst.
      change (String c (s0 ++ t)) with (String c s0 ++ t). constructor; auto. }
    destruct (nullable p1) eqn:N; [|auto].
    inversion H; subst; [auto |].
    change (String c s) with ("" ++ String c s).
    constructor; [now apply nullable_Matches_empty | auto].
  - inversion H; subst; [apply MAltL | apply MAltR]; auto.
  - inversion H; subst.
    change (String c (s0 ++ t)) with (String c s0 ++ t). constructor; auto.
  - inversion H; subst.
    change (String c (s0 ++ t)) with (String c s0 ++ t). constructor; auto.
Qed.

Lemma derive_Matches (p : Pattern) (cs : string) :
  Matches p cs -> forall c s, cs = String c s -> Matches (derive c p) s.
Proof.
  induction 1; intros a u E; simpl.
  - discriminate.
  - injection E as -> <-. destruct (ascii_dec a a); [constructor | congruence].
  - injection E as -> <-. rewrite H. constructor.
  - destruct s as [|b s].
    + simpl in E. rewrite (Matches_empty_nullable p "" H eq_refl).
      apply MAltR. auto.
    + injection E as -> <-.
      assert (Matches (Seq (derive a p) q) (s ++ t)) by (constructor; auto).
      destruct (nullable p); [now apply MAltL | assumption].
  - apply MAltL. auto.
  - apply MAltR. auto.
  - discriminate.
  - destruct s as [|b s].
    + simpl in E. exact (IHMatches2 a u E).
    + injection E as -> <-. constructor; auto.
  - destruct s as [|b s].
    + simpl in E. exact (IHMatches2 a u E).
    + injection E as -> <-. constructor; auto.
Qed.

(** [test] accepts exactly the strings of the pattern's language. *)
Lemma test_Matches (p : Pattern) (s : string) : test p s = true <-> Matches p s.
Proof.
  revert p. induction s as [|c s IH]; intros p; simpl.
  - split; [apply nullable_Matches_empty | intros H; now apply (Matches_empty_nullable p "")].
  - rewrite IH. split; [apply Matches_derive | intros H; now apply (derive_Matches p (String c s))].
Qed.

Lemma Matches_Class_inv (negated : bool) (atoms : list ClassAtom) (s : string) :
  Matches (Class negated atoms) s ->
  exists c, s = String c "" /\ classMatches negated atoms c = true.
Proof. intros H. inversion H; subst. eauto. Qed.

Lemma Matches_Star_Class (p : Pattern) (s : string) :
  Matches p s -> forall negated atoms, p = Star (Class negated atoms) ->
  Js.every (classMatches negated atoms) s = true.
Proof.
  induction 1 as [| | | | | | |p s t Hs _ Ht IHt|]; intros n a E; try discriminate.
  - reflexivity.
  - injection E as ->. apply Matches_Class_inv in Hs as (c & -> & Hc).
    simpl. rewrite Hc. simpl. now apply IHt.
Qed.

Lemma Matches_Plus_Class (negated : bool) (atoms : list ClassAtom) (s : string) :
  Matches (Plus (Class negated atoms)) s ->
  s <> "" /\ Js.every (classMatches negated atoms) s = true.
Proof.
  intros H. inversion H as [| | | | | | | |p u t Hu Ht]; subst.
  apply Matches_Class_inv in Hu as (c & -> & Hc). simpl. split; [discriminate |].
  rewrite Hc. simpl. now apply (Matches_Star_Class _ _ Ht).
Qed.

Lemma every_Matches_Star (negated : bool) (atoms : list ClassAtom) (s : string) :
  Js.every (classMatches negated atoms) s = true ->
  Matches (Star (Class negated atoms)) s.
Proof.
  induction s as [|c s IH]; simpl; [constructor |].
  intros [Hc Hs]%andb_true_iff.
  change (String c s) with (String c "" ++ s). constructor; [now constructor | auto].
Qed.

Lemma every_Matches_Plus (negated : bool) (atoms : list ClassAtom) (s : string) :
  s <> "" -> Js.every (classMatches negated atoms) s = true ->
  Matches (Plus (Class negated atoms)) s.
Proof.
  destruct s as [|c s]; [congruence |]. simpl. intros _ [Hc Hs]%andb_true_iff.
  change (String c s) with (String c "" ++ s).
  constructor; [now constructor | now apply every_Matches_Star].
Qed.

(** The shape of the strings [EMAIL_REGEX] accepts: a local part, one [@], and
    a domain in which a dot separates two non-empty pieces; no piece holds
    white space or [@]. *)
Lemma EMAIL_REGEX_shape (s : string) :
  test Email.EMAIL_REGEX s = true <->
  exists l d t,
    s = l ++ "@" ++ d ++ "." ++ t
    /\ l <> "" /\ d <> "" /\ t <> ""
    /\ Js.every addressUnit l = true
    /\ Js.every addressUnit d = true
    /\ Js.every addressUnit t = true.
Proof.
  rewrite test_Matches. unfold Email.EMAIL_REGEX, Email.notSpaceNorAt. split.
  - intros H. inversion H as [| | |? ? l r1 Hl H1| | | | |]; subst.
    inversion H1 as [| | |? ? a r2 Ha H2| | | | |]; subst.
    inversion H2 as [| | |? ? d r3 Hd H3| | | | |]; subst.
    inversion H3 as [| | |? ? b t Hb Ht| | | | |]; subst.
    inversion Ha; subst. inversion Hb; subst.
    apply Matches_Plus_Class in Hl as [? ?], Hd as [? ?], Ht as [? ?].
    exists l, d, t. repeat split; auto.
  - intros (l & d & t & -> & Hl & Hd & Ht & El & Ed & Et).
    constructor; [now apply every_Matches_Plus |].
    change ("@" ++ d ++ "." ++ t) with (String "@" "" ++ d ++ "." ++ t).
    constructor; [constructor |].
    constructor; [now apply every_Matches_Plus |].
    change ("." ++ t) with (String "." "" ++ t).
    constructor; [constructor | now apply every_Matches_Plus].
Qed.

Lemma addressUnit_not_at (c : ascii) : addressUnit c = true -> differsFrom "@" c = true.
Proof.
  unfold differsFrom. destruct (ascii_dec c "@") as [->|]; [|reflexivity].
  vm_compute. intros H. discriminate H.
Qed.

Lemma addressUnit_not_white (c : ascii) :
  addressUnit c = true -> Js.isWhiteSpace c = false.
Proof.
  unfold addressUnit, classMatches. simpl.
  destruct (Js.isWhiteSpace c); [intros H; discriminate H | reflexivity].
Qed.

Lemma isWhiteSpace_not_at (c : ascii) : Js.isWhiteSpace c = true -> differsFrom "@" c = true.
Proof.
  unfold differsFrom. destruct (ascii_dec c "@") as [->|]; [discriminate | reflexivity].
Qed.

End RegExpFacts.

(** ** The store and the Valkey repository *)

Section StoreFacts.
Import Valkey.

Lemma setAt_putSet (key : string) (X : gset string) (ks : gmap string (gset string)) :
  setAt key (putSet key X ks) = X.
Proof.
  unfold setAt, putSet. destruct (decide (X = ∅)) as [->|].
  - now rewrite lookup_delete_eq.
  - now rewrite lookup_insert_eq.
Qed.

Lemma putSet_putSet (key : string) (X Y : gset string) (ks : gmap string (gset string)) :
  putSet key Y (putSet key X ks) = putSet key Y ks.
Proof.
  unfold putSet. destruct (decide (Y = ∅)), (decide (X = ∅)).
  - apply map_eq. intros k. destruct (decide (key = k)) as [->|].
    + now rewrite !lookup_delete_eq.
    + now rewrite !lookup_delete_ne.
  - now rewrite delete_insert_eq.
  - now rewrite insert_delete_eq.
  - now rewrite insert_insert_eq.
Qed.

Lemma request_fault {A} (command : gmap string (gset string) -> A * gmap string (gset string))
    (client : GlideClient) (e : Error) :
  fault client = Some e -> request command client = (Throw e, client).
Proof. unfold request. now intros ->. Qed.

Lemma request_ok {A} (command : gmap string (gset string) -> A * gmap string (gset string))
    (client : GlideClient) :
  fault client = None ->
  request command client =
    (Normal (fst (command (keyspace client))), mkClient (snd (command (keyspace client))) None).
Proof. unfold request. intros ->. now destruct (command (keyspace client)). Qed.

Lemma client_eta (client : GlideClient) :
  fault client = None -> mkClient (keyspace client) None = client.
Proof. destruct client; simpl. now intros ->. Qed.

Variable setKey : string.
Let repo := ValkeyBannedEmailRepository setKey.

(** What each method of the Valkey repository does to a reachable store. *)

Lemma isBanned_ok (email : string) (client : GlideClient) :
  fault client = None ->
  isBanned repo email client =
    (Normal (bool_decide (Js.toLowerCase email ∈ bannedSet setKey client)), client).
Proof.
  intros H. unfold repo, isBanned, ValkeyBannedEmailRepository, sismember, mbind, async_bind.
  rewrite request_ok by assumption. simpl. rewrite negb_involutive.
  now rewrite client_eta.
Qed.

Lemma ban_ok (email : string) (client : GlideClient) :
  fault client = None ->
  ban repo email client =
    (Normal tt,
     mkClient (putSet setKey (bannedSet setKey client ∪ {[Js.toLowerCase email]})
                 (keyspace client)) None).
Proof.
  intros H. unfold repo, ban, ValkeyBannedEmailRepository, sadd, mbind, async_bind.
  rewrite request_ok by assumption. simpl. unfold bannedSet.
  now rewrite union_empty_r_L.
Qed.

Lemma unban_ok (email : string) (client : GlideClient) :
  fault client = None ->
  unban repo email client =
    (Normal tt,
     mkClient (putSet setKey (bannedSet setKey client ∖ {[Js.toLowerCase email]})
                 (keyspace client)) None).
Proof.
  intros H. unfold repo, unban, ValkeyBannedEmailRepository, srem, mbind, async_bind.
  rewrite request_ok by assumption. simpl. unfold bannedSet.
  now rewrite union_empty_r_L.
Qed.

Lemma stringsOnly_GString (l : list string) : stringsOnly (GString <$> l) = l.
Proof.
  induction l as [|x l IH]; [reflexivity |].
  change (stringsOnly (GString <$> x :: l)) with (x :: stringsOnly (GString <$> l)).
  now rewrite IH.
Qed.

Lemma getAllBanned_ok (client : GlideClient) :
  fault client = None ->
  getAllBanned repo client =
    (Normal (Js.toLowerCase <$> elements (bannedSet setKey client)), client).
Proof.
  intros H. unfold repo, getAllBanned, ValkeyBannedEmailRepository, smembers, mbind, async_bind.
  rewrite request_ok by assumption. simpl.
  now rewrite stringsOnly_GString, client_eta.
Qed.

Lemma clear_ok (client : GlideClient) :
  fault client = None ->
  clear repo client = (Normal tt, mkClient (delete setKey (keyspace client)) None).
Proof.
  intros H. unfold repo, clear, ValkeyBannedEmailRepository, del, mbind, async_bind.
  now rewrite request_ok by assumption.
Qed.

(** A call on an unreachable store rejects and changes nothing. *)
Lemma after_fault (c : Call) (client : GlideClient) (e : Error) :
  fault client = Some e -> after repo c client = client.
Proof.
  intros H.
  destruct c; unfold after, repo, isBanned, ban, unban, getAllBanned, clear,
    ValkeyBannedEmailRepository, sismember, sadd, srem, smembers, del, mbind, async_bind;
    now rewrite (request_fault _ _ e H).
Qed.

Lemma after_fault_None (c : Call) (client : GlideClient) :
  fault client = None -> fault (after repo c client) = None.
Proof.
  intros H. destruct c; unfold after.
  - now rewrite isBanned_ok.
  - now rewrite ban_ok.
  - now rewrite unban_ok.
  - now rewrite getAllBanned_ok.
  - now rewrite clear_ok.
Qed.

(** The BannedSet after each call. *)
Lemma bannedSet_after (c : Call) (client : GlideClient) :
  fault client = None ->
  bannedSet setKey (after repo c client) =
    match c with
    | CallBan email => bannedSet setKey client ∪ {[Js.toLowerCase email]}
    | CallUnban email => bannedSet setKey client ∖ {[Js.toLowerCase email]}
    | CallClear => ∅
    | _ => bannedSet setKey client
    end.
Proof.
  intros H. destruct c; unfold after.
  - now rewrite isBanned_ok.
  - rewrite ban_ok by assumption. unfold bannedSet at 1. simpl. apply setAt_putSet.
  - rewrite unban_ok by assumption. unfold bannedSet at 1. simpl. apply setAt_putSet.
  - now rewrite getAllBanned_ok.
  - rewrite clear_ok by assumption. unfold bannedSet, setAt. simpl.
    now rewrite lookup_delete_eq.
Qed.

Lemma afterAll_fault_None (calls : list Call) (client : GlideClient) :
  fault client = None -> fault (afterAll repo calls client) = None.
Proof.
  revert client. induction calls as [|c calls IH]; intros client H; [exact H |].
  apply IH. now apply after_fault_None.
Qed.

End StoreFacts.

(** ** The anti-spam gate *)

Lemma isBlocked_eq {R : Type} (bannedEmailRepository : BannedEmailRepository R)
    (email : string) (w : World R) :
  isBlocked (RepositoryAntiSpamAdapter bannedEmailRepository) email w =
    match isBanned bannedEmailRepository email (repository w) with
    | (Normal banned, r) => (Normal banned, mkWorld (console w) r)
    | (Throw error, r) =>
        (Normal false,
         mkWorld (console w ++ [("Failed to check banned email list:", error)]) r)
    end.
Proof.
  simpl. unfold tryCatch, viaRepository, console_error, mbind, async_bind, mret, async_ret.
  now destruct (isBanned bannedEmailRepository email (repository w)) as [[banned|error] r].
Qed.

(** C1. For every repository, email and world, [isBlocked] of the gate built
    on that repository completes normally: when the repository's [isBanned]
    returns a boolean the gate returns that boolean and prints nothing; when
    [isBanned] throws, whatever the error, the gate reports the error on the
    console and returns [false].  The repository's state is left as
    [isBanned] left it. *)
Theorem isBlocked_fail_open {R : Type} (bannedEmailRepository : BannedEmailRepository R)
    (email : string) (w : World R) :
  let gate := RepositoryAntiSpamAdapter bannedEmailRepository in
  (exists blocked w', isBlocked gate email w = (Normal blocked, w'))
  /\ isBlocked gate email w =
       match isBanned bannedEmailRepository email (repository w) with
       | (Normal banned, r) => (Normal banned, mkWorld (console w) r)
       | (Throw error, r) =>
           (Normal false,
            mkWorld (console w ++ [("Failed to check banned email list:", error)]) r)
       end.
Proof.
  intros gate. unfold gate. rewrite isBlocked_eq.
  destruct (isBanned bannedEmailRepository email (repository w)) as [[banned|error] r];
    eauto.
Qed.

(** The gate on a Valkey repository whose store cannot be reached. *)
Lemma isBlocked_store_unavailable (setKey email : string) (log : list (string * Error))
    (ks : gmap string (gset string)) (e : Error) :
  isBlocked (RepositoryAntiSpamAdapter (ValkeyBannedEmailRepository setKey)) email
    (mkWorld log (Valkey.mkClient ks (Some e)))
  = (Normal false,
     mkWorld (log ++ [("Failed to check banned email list:", e)]) (Valkey.mkClient ks (Some e))).
Proof. reflexivity. Qed.

(** The gate on a Valkey repository whose store answers. *)
Lemma isBlocked_ok (setKey email : string) (w : World Valkey.GlideClient) :
  Valkey.fault (repository w) = None ->
  isBlocked (RepositoryAntiSpamAdapter (ValkeyBannedEmailRepository setKey)) email w
  = (Normal (bool_decide (Js.toLowerCase email ∈ bannedSet setKey (repository w))), w).
Proof.
  intros H.
  rewrite isBlocked_eq, isBanned_ok by assumption. now destruct w.
Qed.

(** ** The in-memory repository *)

(** C10. For every email and every content of [bannedEmails], the in-memory
    repository throws the error "Method not implemented." from [isBanned],
    [ban], [unban] and [getAllBanned], leaving its state untouched; [clear]
    alone completes, emptying the set.  So the contract of the port fails on
    it: after [ban(x)], [isBanned(x)] does not return [true]. *)
Theorem InMemory_not_implemented (email : string) (bannedEmails : gset string) :
  let repo := InMemoryBannedEmailRepository in
  isBanned repo email bannedEmails = (Throw notImplemented, bannedEmails)
  /\ ban repo email bannedEmails = (Throw notImplemented, bannedEmails)
  /\ unban repo email bannedEmails = (Throw notImplemented, bannedEmails)
  /\ getAllBanned repo bannedEmails = (Throw notImplemented, bannedEmails)
  /\ clear repo bannedEmails = (Normal tt, ∅)
  /\ message notImplemented = "Method not implemented."
  /\ fst (isBanned repo email (snd (ban repo email bannedEmails))) <> Normal true.
Proof. simpl. unfold throw. repeat split; discriminate. Qed.

(** ** The Valkey repository *)

Section RepositoryContract.
Import Valkey.
Variable setKey : string.
Let repo := ValkeyBannedEmailRepository setKey.

Lemma ban_ban (x : string) (client : GlideClient) :
  fault client = None ->
  snd (ban repo x (snd (ban repo x client))) = snd (ban repo x client).
Proof.
  intros H. unfold repo. rewrite (ban_ok setKey x client H). cbn [snd].
  rewrite ban_ok by reflexivity. cbn [snd]. unfold bannedSet at 1. cbn [keyspace].
  rewrite setAt_putSet, putSet_putSet. do 2 f_equal. set_solver.
Qed.

Lemma banTimes_S (n : nat) (x : string) (client : GlideClient) :
  fault client = None ->
  banTimes repo (S n) x client = snd (ban repo x client).
Proof.
  revert client. induction n as [|n IH]; intros client H; [reflexivity |].
  change (banTimes repo (S (S n)) x client)
    with (banTimes repo (S n) x (after repo (CallBan x) client)).
  rewrite IH by now apply after_fault_None.
  now apply ban_ban.
Qed.

Lemma not_banned_preserved (y : string) (calls : list Call) (client : GlideClient) :
  fault client = None ->
  Js.toLowerCase y ∉ bannedSet setKey client ->
  Forall (fun e => Js.toLowerCase e <> Js.toLowerCase y) (bannedBy calls) ->
  Js.toLowerCase y ∉ bannedSet setKey (afterAll repo calls client).
Proof.
  revert client. induction calls as [|c calls IH]; intros client H Hy Hcalls; [exact Hy |].
  change (afterAll repo (c :: calls) client) with (afterAll repo calls (after repo c client)).
  apply IH.
  - now apply after_fault_None.
  - unfold repo. rewrite bannedSet_after by assumption.
    destruct c; try assumption.
    + apply Forall_cons in Hcalls as [Hc _]. set_solver.
    + set_solver.
    + set_solver.
  - destruct c; try assumption. now apply Forall_cons in Hcalls as [_ ?].
Qed.

End RepositoryContract.

(** C5. On a store that answers: after [ban(x)], [isBanned(x)] returns [true];
    any number of further [ban(x)] leaves the store exactly as the first one
    did, and [isBanned(x)] still [true]; an address [y] that is not in the
    BannedSet and that no later call bans, in any letter case, is reported
    not banned; and [isBanned] of any address, banned or not, leaves the
    store as it found it. *)
Theorem ban_isBanned (setKey x y : string) (client : Valkey.GlideClient)
    (n : nat) (calls : list Call)
    (Hstore : Valkey.fault client = None)
    (Hfresh : Js.toLowerCase y ∉ bannedSet setKey client)
    (Hnever : Forall (fun e => Js.toLowerCase e <> Js.toLowerCase y) (bannedBy calls)) :
  let repo := ValkeyBannedEmailRepository setKey in
  fst (isBanned repo x (snd (ban repo x client))) = Normal true
  /\ banTimes repo (S n) x client = snd (ban repo x client)
  /\ fst (isBanned repo x (banTimes repo (S n) x client)) = Normal true
  /\ fst (isBanned repo y (afterAll repo calls client)) = Normal false
  /\ (forall z, snd (isBanned repo z client) = client)
  /\ (forall z, snd (isBanned repo z (snd (ban repo x client))) = snd (ban repo x client)).
Proof.
  intros repo.
  assert (Hbanned : Valkey.fault (snd (ban repo x client)) = None).
  { exact (after_fault_None setKey (CallBan x) client Hstore). }
  assert (Hx : fst (isBanned repo x (snd (ban repo x client))) = Normal true).
  { change (snd (ban repo x client)) with (after repo (CallBan x) client).
    unfold repo. rewrite isBanned_ok by now apply after_fault_None.
    cbn [fst]. f_equal. apply bool_decide_eq_true.
    rewrite bannedSet_after by assumption. set_solver. }
  split; [exact Hx |].
  split; [now apply banTimes_S |].
  split; [unfold repo; now rewrite banTimes_S |].
  split; [|split].
  - unfold repo. rewrite isBanned_ok by now apply afterAll_fault_None.
    cbn [fst]. f_equal. apply bool_decide_eq_false. now apply not_banned_preserved.
  - intros z. unfold repo. now rewrite isBanned_ok.
  - intros z. unfold repo in *. now rewrite isBanned_ok.
Qed.

Lemma ban_isBanned_witness :
  let repo := ValkeyBannedEmailRepository DEFAULT_SET_KEY in
  let client := snd (ban repo "listed@example.com" freshClient) in
  fst (isBanned repo "spam@example.com" (snd (ban repo "spam@example.com" client)))
    = Normal true
  /\ banTimes repo 2 "spam@example.com" client
     = snd (ban repo "spam@example.com" client)
  /\ fst (isBanned repo "spam@example.com" (banTimes repo 2 "spam@example.com" client))
     = Normal true
  /\ fst (isBanned repo "user@example.com"
            (afterAll repo [CallBan "spam@example.com"; CallUnban "User@Example.com"]
               client)) = Normal false
  /\ (forall z, snd (isBanned repo z client) = client)
  /\ (forall z, snd (isBanned repo z (snd (ban repo "spam@example.com" client)))
                = snd (ban repo "spam@example.com" client)).
Proof.
  intros repo client.
  apply (ban_isBanned DEFAULT_SET_KEY "spam@example.com" "user@example.com" client 1
           [CallBan "spam@example.com"; CallUnban "User@Example.com"]).
  - reflexivity.
  - apply (bool_decide_unpack _). vm_compute. exact I.
  - repeat constructor. vm_compute. discriminate.
Defined.

(** C6. On a store that answers: after [ban(x)] then [unban(x)],
    [isBanned(x)] returns [false]; and [unban(x)] completes normally whether
    or not [x] is a member, removing the lower-cased address and nothing
    else - so on a non-member it changes nothing. *)
Theorem ban_unban_isBanned (setKey x : string) (client : Valkey.GlideClient)
    (Hstore : Valkey.fault client = None) :
  let repo := ValkeyBannedEmailRepository setKey in
  fst (isBanned repo x (afterAll repo [CallBan x; CallUnban x] client)) = Normal false
  /\ fst (unban repo x client) = Normal tt
  /\ bannedSet setKey (snd (unban repo x client))
     = bannedSet setKey client ∖ {[Js.toLowerCase x]}.
Proof.
  intros repo. repeat split.
  - unfold repo. rewrite isBanned_ok by now apply afterAll_fault_None.
    cbn [fst]. f_equal. apply bool_decide_eq_false.
    change (afterAll (ValkeyBannedEmailRepository setKey) [CallBan x; CallUnban x] client)
      with (after (ValkeyBannedEmailRepository setKey) (CallUnban x)
              (after (ValkeyBannedEmailRepository setKey) (CallBan x) client)).
    rewrite bannedSet_after by now apply after_fault_None. set_solver.
  - unfold repo. now rewrite unban_ok.
  - exact (bannedSet_after setKey (CallUnban x) client Hstore).
Qed.

Lemma ban_unban_isBanned_witness :
  let repo := ValkeyBannedEmailRepository DEFAULT_SET_KEY in
  fst (isBanned repo "spammer@example.com"
         (afterAll repo [CallBan "spammer@example.com"; CallUnban "spammer@example.com"]
            freshClient)) = Normal false
  /\ fst (unban repo "spammer@example.com" freshClient) = Normal tt
  /\ bannedSet DEFAULT_SET_KEY (snd (unban repo "spammer@example.com" freshClient))
     = bannedSet DEFAULT_SET_KEY freshClient ∖ {[Js.toLowerCase "spammer@example.com"]}.
Proof.
  apply (ban_unban_isBanned DEFAULT_SET_KEY "spammer@example.com" freshClient).
  reflexivity.
Defined.

Section Enumeration.
Import Valkey.
Variable setKey : string.
Let repo := ValkeyBannedEmailRepository setKey.

Lemma fmap_fixed (f : string -> string) (l : list string) :
  Forall (fun m => f m = m) l -> f <$> l = l.
Proof. induction 1 as [|m l Hm _ IH]; [reflexivity |]. rewrite fmap_cons. now rewrite Hm, IH. Qed.

Lemma elements_lower_cased (X : gset string) :
  allLowerCased X -> Js.toLowerCase <$> elements X = elements X.
Proof.
  intros HX. apply fmap_fixed, Forall_forall. intros m Hm. apply HX.
  now apply elem_of_elements.
Qed.

Lemma bannedSet_bans (emails : list string) (client : GlideClient) :
  fault client = None ->
  bannedSet setKey (afterAll repo (CallBan <$> emails) client)
  = bannedSet setKey client ∪ list_to_set (Js.toLowerCase <$> emails).
Proof.
  revert client. induction emails as [|e emails IH]; intros client H.
  - simpl. now rewrite union_empty_r_L.
  - change (afterAll repo (CallBan <$> e :: emails) client)
      with (afterAll repo (CallBan <$> emails) (after repo (CallBan e) client)).
    rewrite IH by now apply after_fault_None.
    unfold repo. rewrite bannedSet_after by assumption.
    rewrite fmap_cons, list_to_set_cons. now rewrite (assoc_L (∪)).
Qed.

Lemma allLowerCased_after (c : Call) (client : GlideClient) :
  allLowerCased (bannedSet setKey client) ->
  allLowerCased (bannedSet setKey (after repo c client)).
Proof.
  intros Hinv. destruct (fault client) as [e|] eqn:H.
  - unfold repo. now rewrite (after_fault setKey c client e H).
  - unfold repo. rewrite bannedSet_after by assumption.
    destruct c; try assumption; intros m Hm.
    + apply elem_of_union in Hm as [Hm|Hm]; [now apply Hinv |].
      apply elem_of_singleton in Hm as ->. apply toLowerCase_idem.
    + apply elem_of_difference in Hm as [Hm _]. now apply Hinv.
    + now apply not_elem_of_empty in Hm.
Qed.

Lemma allLowerCased_afterAll (calls : list Call) (client : GlideClient) :
  allLowerCased (bannedSet setKey client) ->
  allLowerCased (bannedSet setKey (afterAll repo calls client)).
Proof.
  revert client. induction calls as [|c calls IH]; intros client Hinv; [exact Hinv |].
  apply IH. now apply allLowerCased_after.
Qed.

End Enumeration.

(** C7. On a store that answers and whose BannedSet holds lower-cased
    members only: [getAllBanned] returns a list without duplicates whose
    elements are exactly the members of the BannedSet, each in lower case;
    right after [clear()] it returns the empty list; and after [clear()]
    followed by bans of [a] and [b], distinct once lower-cased, in any number
    of letter-case variants, it returns exactly two elements, the lower-cased
    [a] and [b]. *)
Theorem getAllBanned_members (setKey a b : string) (variants : list string)
    (client : Valkey.GlideClient)
    (Hstore : Valkey.fault client = None)
    (Hinv : allLowerCased (bannedSet setKey client))
    (Hdistinct : Js.toLowerCase a <> Js.toLowerCase b)
    (Hvariants : Forall (fun v => Js.toLowerCase v = Js.toLowerCase a
                                  \/ Js.toLowerCase v = Js.toLowerCase b) variants) :
  let repo := ValkeyBannedEmailRepository setKey in
  (exists l, fst (getAllBanned repo client) = Normal l
             /\ NoDup l
             /\ (forall m, m ∈ l <-> m ∈ bannedSet setKey client)
             /\ Forall (fun m => Js.toLowerCase m = m) l)
  /\ fst (getAllBanned repo (snd (clear repo client))) = Normal []
  /\ (exists l, fst (getAllBanned repo
                       (afterAll repo (CallClear :: CallBan a :: CallBan b
                                         :: (CallBan <$> variants)) client)) = Normal l
                /\ length l = 2
                /\ NoDup l
                /\ forall m, m ∈ l <-> m = Js.toLowerCase a \/ m = Js.toLowerCase b).
Proof.
  intros repo. split; [|split].
  - exists (elements (bannedSet setKey client)). unfold repo.
    rewrite getAllBanned_ok by assumption. cbn [fst].
    rewrite elements_lower_cased by assumption. repeat split.
    + apply NoDup_elements.
    + apply elem_of_elements.
    + apply elem_of_elements.
    + apply Forall_forall. intros m Hm. apply Hinv. now apply elem_of_elements.
  - change (snd (clear repo client)) with (after repo CallClear client).
    unfold repo. rewrite getAllBanned_ok by now apply after_fault_None.
    rewrite bannedSet_after by assumption. cbn [fst].
    now rewrite elements_empty.
  - set (final := afterAll repo (CallClear :: CallBan a :: CallBan b
                                   :: (CallBan <$> variants)) client).
    assert (Hok : Valkey.fault final = None) by now apply afterAll_fault_None.
    assert (HX : bannedSet setKey final = {[Js.toLowerCase a]} ∪ {[Js.toLowerCase b]}).
    { change final
        with (afterAll repo (CallBan <$> a :: b :: variants) (after repo CallClear client)).
      unfold repo. rewrite bannedSet_bans by now apply after_fault_None.
      rewrite bannedSet_after by assumption.
      apply set_eq. intros m.
      rewrite elem_of_union, elem_of_list_to_set, list_elem_of_fmap,
        elem_of_union, !elem_of_singleton.
      split.
      - intros [H|(v & -> & Hv)]; [now apply not_elem_of_empty in H |].
        apply elem_of_cons in Hv as [->|Hv]; [now left |].
        apply elem_of_cons in Hv as [->|Hv]; [now right |].
        rewrite Forall_forall in Hvariants. exact (Hvariants v Hv).
      - intros [->| ->]; right.
        + exists a. split; [reflexivity | apply elem_of_cons; now left].
        + exists b. split; [reflexivity |].
          apply elem_of_cons. right. apply elem_of_cons. now left. }
    assert (Hlow : allLowerCased (bannedSet setKey final)).
    { rewrite HX. intros m [Hm|Hm]%elem_of_union;
        apply elem_of_singleton in Hm as ->; apply toLowerCase_idem. }
    exists (elements (bannedSet setKey final)). unfold repo in *.
    rewrite getAllBanned_ok by assumption. cbn [fst].
    rewrite elements_lower_cased by assumption. repeat split.
    + change (length (elements (bannedSet setKey final)))
        with (size (bannedSet setKey final)).
      rewrite HX, size_union, !size_singleton; [reflexivity |].
      intros m Ha Hb. apply elem_of_singleton in Ha, Hb. congruence.
    + apply NoDup_elements.
    + intros Hm. apply elem_of_elements in Hm. rewrite HX in Hm.
      now rewrite elem_of_union, !elem_of_singleton in Hm.
    + intros Hm. apply elem_of_elements. rewrite HX.
      now rewrite elem_of_union, !elem_of_singleton.
Qed.

Lemma getAllBanned_members_witness :
  let repo := ValkeyBannedEmailRepository DEFAULT_SET_KEY in
  let a := "Spam1@Example.COM" in
  let b := "spam2@example.com" in
  let variants := ["SPAM1@example.com"; "Spam2@Example.Com"; "spam1@example.com"] in
  (exists l, fst (getAllBanned repo freshClient) = Normal l
             /\ NoDup l
             /\ (forall m, m ∈ l <-> m ∈ bannedSet DEFAULT_SET_KEY freshClient)
             /\ Forall (fun m => Js.toLowerCase m = m) l)
  /\ fst (getAllBanned repo (snd (clear repo freshClient))) = Normal []
  /\ (exists l, fst (getAllBanned repo
                       (afterAll repo (CallClear :: CallBan a :: CallBan b
                                         :: (CallBan <$> variants)) freshClient)) = Normal l
                /\ length l = 2
                /\ NoDup l
                /\ forall m, m ∈ l <-> m = Js.toLowerCase a \/ m = Js.toLowerCase b).
Proof.
  intros repo a b variants.
  apply (getAllBanned_members DEFAULT_SET_KEY a b variants freshClient).
  - reflexivity.
  - intros m Hm. now apply not_elem_of_empty in Hm.
  - vm_compute. discriminate.
  - constructor; [left; reflexivity |].
    constructor; [right; reflexivity |].
    constructor; [left; reflexivity | constructor].
Defined.

(** C3 as stated fails: the repository does not trim.  With
    ["spam@example.com"] banned, [isBanned] of the same address written with
    surrounding spaces differs from [isBanned] of its trimmed, lower-cased
    form; and banning the spaced address stores a member that is not
    trimmed. *)
Lemma repository_trims_counterexample :
  let repo := ValkeyBannedEmailRepository DEFAULT_SET_KEY in
  let e := " Spam@Example.com " in
  let client := snd (ban repo "spam@example.com" freshClient) in
  Js.toLowerCase (Js.trim e) = "spam@example.com"
  /\ fst (isBanned repo e client) = Normal false
  /\ fst (isBanned repo (Js.toLowerCase (Js.trim e)) client) = Normal true
  /\ isBanned repo e client <> isBanned repo (Js.toLowerCase (Js.trim e)) client
  /\ " spam@example.com " ∈ bannedSet DEFAULT_SET_KEY (snd (ban repo e freshClient))
  /\ Js.trim " spam@example.com " <> " spam@example.com ".
Proof.
  intros repo e client.
  split; [vm_compute; reflexivity |].
  split; [vm_compute; reflexivity |].
  split; [vm_compute; reflexivity |].
  split; [|split].
  - intros H. apply (f_equal fst) in H. vm_compute in H. discriminate H.
  - apply (bool_decide_unpack _). vm_compute. exact I.
  - vm_compute. discriminate.
Qed.

(** C3, amended.  Every method of the Valkey repository that takes an email
    lower-cases it, and does nothing else to it, before touching the store:
    [isBanned], [ban] and [unban] on [e] are the same computation as on the
    lower-cased [e]; and if every member of the BannedSet is lower-cased, so
    is every member after any sequence of calls. *)
Theorem repository_lower_cases (setKey e : string) (calls : list Call)
    (client : Valkey.GlideClient)
    (Hinv : allLowerCased (bannedSet setKey client)) :
  let repo := ValkeyBannedEmailRepository setKey in
  isBanned repo e client = isBanned repo (Js.toLowerCase e) client
  /\ ban repo e client = ban repo (Js.toLowerCase e) client
  /\ unban repo e client = unban repo (Js.toLowerCase e) client
  /\ allLowerCased (bannedSet setKey (afterAll repo calls client)).
Proof.
  intros repo. unfold repo, isBanned, ban, unban, ValkeyBannedEmailRepository.
  rewrite toLowerCase_idem. repeat split.
  now apply allLowerCased_afterAll.
Qed.

Lemma repository_lower_cases_witness :
  let repo := ValkeyBannedEmailRepository DEFAULT_SET_KEY in
  let e := " Spam@Example.COM " in
  let calls := [CallBan e; CallBan "A@b.c"; CallIsBanned "x"; CallUnban "a@B.C";
                CallGetAllBanned; CallBan "Q@r.s"] in
  isBanned repo e freshClient = isBanned repo (Js.toLowerCase e) freshClient
  /\ ban repo e freshClient = ban repo (Js.toLowerCase e) freshClient
  /\ unban repo e freshClient = unban repo (Js.toLowerCase e) freshClient
  /\ allLowerCased (bannedSet DEFAULT_SET_KEY (afterAll repo calls freshClient)).
Proof.
  intros repo e calls.
  apply (repository_lower_cases DEFAULT_SET_KEY e calls freshClient).
  intros m Hm. now apply not_elem_of_empty in Hm.
Defined.

(** ** Identity construction *)

Section Construction.

Lemma create_eq (input : string) :
  Email.create input =
    if Email.isValid (Js.trim input)
    then Normal (mkEmail (Js.toLowerCase (Js.trim input)))
    else Throw (InvalidFormat input).
Proof.
  unfold Email.create, Email.constructor, InvalidFormat.
  now destruct (Email.isValid (Js.trim input)).
Qed.

Lemma createWithAntiSpam_eq {St} (input : string) (gate : AntiSpamPort St) (st : St) :
  Email.createWithAntiSpam input gate st =
    match isBlocked gate input st with
    | (Normal true, st') => (Throw (Blocked input), st')
    | (Normal false, st') => (Email.create input, st')
    | (Throw e, st') => (Throw e, st')
    end.
Proof.
  unfold Email.createWithAntiSpam, mbind, async_bind.
  destruct (isBlocked gate input st) as [[[]|e] st']; reflexivity.
Qed.

Lemma isValid_trim_Malformed (input : string) :
  Malformed input -> Email.isValid (Js.trim input) = false.
Proof.
  unfold Email.isValid, Email.hasConsecutiveDots.
  intros [H|[(dom & Hdom & Hdot)|[H|[H|H]]]].
  - destruct (RegExp.test Email.EMAIL_REGEX (Js.trim input)) eqn:T;
      [exfalso | apply andb_false_r].
    apply EMAIL_REGEX_shape in T as (l & d & t & E & _).
    rewrite <- (includes_trim input "@"), E in H by (reflexivity || discriminate).
    change ("@" ++ d ++ "." ++ t) with (String "@" (d ++ "." ++ t)) in H.
    rewrite includes_unit_append in H. discriminate H.
  - destruct (RegExp.test Email.EMAIL_REGEX (Js.trim input)) eqn:T;
      [exfalso | apply andb_false_r].
    apply EMAIL_REGEX_shape in T as (l & d & t & E & _ & _ & _ & Hl & Hd & Ht).
    destruct (trim_decompose input) as (w1 & w2 & Hin & H1 & H2).
    assert (Hsplit : input = (w1 ++ l) ++ String "@" (d ++ String "." (t ++ w2))).
    { rewrite Hin, E. rewrite !append_assoc. reflexivity. }
    assert (Hrest : Js.every (differsFrom "@") (d ++ String "." (t ++ w2)) = true).
    { rewrite every_append. cbn [Js.every]. rewrite every_append.
      rewrite (every_impl _ _ d addressUnit_not_at Hd),
        (every_impl _ _ t addressUnit_not_at Ht),
        (every_impl _ _ w2 isWhiteSpace_not_at H2). reflexivity. }
    unfold domainPart in Hdom. rewrite Hsplit in Hdom.
    rewrite split_append_sep, (split_without _ _ Hrest) in Hdom.
    + injection Hdom as <-. rewrite includes_unit_append in Hdot. discriminate Hdot.
    + rewrite every_append.
      now rewrite (every_impl _ _ w1 isWhiteSpace_not_at H1),
        (every_impl _ _ l addressUnit_not_at Hl).
  - rewrite includes_trim by (reflexivity || discriminate). rewrite H.
    cbn [negb]. now rewrite andb_false_r.
  - destruct input; [reflexivity | discriminate H].
  - apply Nat.leb_gt in H. rewrite H. now rewrite andb_false_r.
Qed.

End Construction.

(** C2 as stated fails: the gate is asked first, and about the input as it
    was given.  A syntactically invalid input that is on the banned list is
    rejected as blocked, not as badly formatted; and a banned address given
    with a leading space is not found by the gate, so construction
    succeeds although the gate blocks the normalized address. *)
Lemma createWithAntiSpam_validates_first_counterexample :
  let repo := ValkeyBannedEmailRepository DEFAULT_SET_KEY in
  let gate := RepositoryAntiSpamAdapter repo in
  let w := mkWorld []
             (afterAll repo [CallBan "not-an-email"; CallBan "attacker@example.com"]
                freshClient) in
  Email.isValid (Js.trim "not-an-email") = false
  /\ fst (Email.createWithAntiSpam "not-an-email" gate w) = Throw (Blocked "not-an-email")
  /\ fst (Email.createWithAntiSpam "not-an-email" gate w)
     <> Throw (InvalidFormat "not-an-email")
  /\ fst (isBlocked gate (Js.toLowerCase (Js.trim " attacker@example.com")) w) = Normal true
  /\ fst (Email.createWithAntiSpam " attacker@example.com" gate w)
     = Normal (mkEmail "attacker@example.com").
Proof.
  intros repo gate w.
  split; [vm_compute; reflexivity |].
  split; [vm_compute; reflexivity |].
  split; [vm_compute; discriminate |].
  split; vm_compute; reflexivity.
Qed.

(** C2, amended.  For every input, gate and state: the anti-spam-aware
    constructor first asks the gate about the input exactly as given; if the
    gate answers [true] construction fails with Blocked carrying that input,
    whatever its syntax; if the gate throws, so does construction; if the gate
    answers [false] the result is that of the plain constructor, which trims
    the input, fails with InvalidFormat carrying the original input when the
    trimmed string is not valid, and otherwise yields the identity holding
    the trimmed, lower-cased string.  With the gate of a Valkey repository,
    the answer is [true] exactly when the store answers and holds the
    lower-cased, untrimmed input. *)
Theorem createWithAntiSpam_gate_first {St : Type} (input : string)
    (antiSpamService : AntiSpamPort St) (st : St)
    (setKey : string) (w : World Valkey.GlideClient) :
  Email.createWithAntiSpam input antiSpamService st =
    match isBlocked antiSpamService input st with
    | (Normal true, st') => (Throw (Blocked input), st')
    | (Normal false, st') => (Email.create input, st')
    | (Throw e, st') => (Throw e, st')
    end
  /\ Email.create input =
       (if Email.isValid (Js.trim input)
        then Normal (mkEmail (Js.toLowerCase (Js.trim input)))
        else Throw (InvalidFormat input))
  /\ fst (Email.createWithAntiSpam input
            (RepositoryAntiSpamAdapter (ValkeyBannedEmailRepository setKey)) w) =
       match Valkey.fault (repository w) with
       | None =>
           if bool_decide (Js.toLowerCase input ∈ bannedSet setKey (repository w))
           then Throw (Blocked input)
           else Email.create input
       | Some _ => Email.create input
       end.
Proof.
  split; [apply createWithAntiSpam_eq |]. split; [apply create_eq |].
  rewrite createWithAntiSpam_eq.
  destruct (Valkey.fault (repository w)) as [e|] eqn:H.
  - destruct w as [log [ks f]]. simpl in H. subst f.
    now rewrite isBlocked_store_unavailable.
  - rewrite isBlocked_ok by assumption.
    now destruct (bool_decide (Js.toLowerCase input ∈ bannedSet setKey (repository w))).
Qed.

(** C4 as stated fails on two counts.  A valid address followed by 250
    spaces is 255 code units long and is accepted, since the length is
    measured after trimming; and a malformed input that the gate reports
    blocked fails the anti-spam-aware constructor with Blocked, not with
    InvalidFormat. *)
Lemma malformed_InvalidFormat_counterexample :
  let padded := "a@b.c" ++ Js.repeat " " 250 in
  let repo := ValkeyBannedEmailRepository DEFAULT_SET_KEY in
  let gate := RepositoryAntiSpamAdapter repo in
  let w := mkWorld [] (snd (ban repo "no-at-sign" freshClient)) in
  254 < String.length padded
  /\ Email.create padded = Normal (mkEmail "a@b.c")
  /\ fst (Email.createWithAntiSpam padded gate w) = Normal (mkEmail "a@b.c")
  /\ Js.includes "no-at-sign" "@" = false
  /\ fst (Email.createWithAntiSpam "no-at-sign" gate w) <> Throw (InvalidFormat "no-at-sign").
Proof.
  intros padded repo gate w.
  split; [vm_compute; lia |].
  split; [vm_compute; reflexivity |].
  split; [vm_compute; reflexivity |].
  split; [vm_compute; reflexivity |].
  vm_compute. discriminate.
Qed.

(** C4, amended.  For every input that lacks an [@], or lacks a dot in its
    domain part, or contains two consecutive dots, or is empty, or is longer
    than 254 code units once trimmed: plain construction fails with
    InvalidFormat carrying the original, untrimmed input; and so does
    anti-spam-aware construction whenever the gate answers that the input is
    not blocked. *)
Theorem malformed_InvalidFormat {St : Type} (input : string)
    (antiSpamService : AntiSpamPort St) (st st' : St)
    (Hmalformed : Malformed input)
    (Hgate : isBlocked antiSpamService input st = (Normal false, st')) :
  Email.create input = Throw (InvalidFormat input)
  /\ Email.createWithAntiSpam input antiSpamService st = (Throw (InvalidFormat input), st').
Proof.
  assert (Hcreate : Email.create input = Throw (InvalidFormat input)).
  { rewrite create_eq. now rewrite isValid_trim_Malformed. }
  split; [exact Hcreate |].
  now rewrite createWithAntiSpam_eq, Hgate, Hcreate.
Qed.

Lemma malformed_InvalidFormat_witness :
  let gate := RepositoryAntiSpamAdapter (ValkeyBannedEmailRepository DEFAULT_SET_KEY) in
  let w := mkWorld [] freshClient in
  Email.create " user@example " = Throw (InvalidFormat " user@example ")
  /\ Email.createWithAntiSpam " user@example " gate w
     = (Throw (InvalidFormat " user@example "), w).
Proof.
  intros gate w.
  apply (malformed_InvalidFormat " user@example " gate w w).
  - right. left. exists "example ". split; reflexivity.
  - reflexivity.
Defined.

(** C8. Take two inputs, each a core string with white space around it, whose
    cores differ in letter case only, and both of valid format once trimmed.
    Construction succeeds on both and the two identities hold the same value,
    the trimmed and lower-cased core. *)
Theorem create_same_identity (w1 c1 w2 w3 c2 w4 : string)
    (Hw1 : Js.allWhiteSpace w1 = true) (Hw2 : Js.allWhiteSpace w2 = true)
    (Hw3 : Js.allWhiteSpace w3 = true) (Hw4 : Js.allWhiteSpace w4 = true)
    (Hcase : Js.toLowerCase c1 = Js.toLowerCase c2)
    (Hvalid1 : Email.isValid (Js.trim (w1 ++ c1 ++ w2)) = true)
    (Hvalid2 : Email.isValid (Js.trim (w3 ++ c2 ++ w4)) = true) :
  exists identity,
    Email.create (w1 ++ c1 ++ w2) = Normal identity
    /\ Email.create (w3 ++ c2 ++ w4) = Normal identity
    /\ value identity = Js.toLowerCase (Js.trim c1).
Proof.
  exists (mkEmail (Js.toLowerCase (Js.trim c1))).
  rewrite !create_eq, Hvalid1, Hvalid2.
  rewrite !trim_surrounded by assumption.
  rewrite <- !trim_toLowerCase, Hcase. repeat split.
Qed.

Lemma create_same_identity_witness :
  exists identity,
    Email.create "  TEST@EXAMPLE.COM " = Normal identity
    /\ Email.create "test@example.com" = Normal identity
    /\ value identity = "test@example.com".
Proof.
  exact (create_same_identity "  " "TEST@EXAMPLE.COM" " " "" "test@example.com" ""
           eq_refl eq_refl eq_refl eq_refl eq_refl eq_refl eq_refl).
Defined.

(** ** End to end *)

(** C9. On a store that answers, after [ban("Attacker@Example.COM")]: the gate
    reports ["attacker@example.com"] blocked; anti-spam-aware construction of
    ["attacker@example.com"] fails with Blocked; and plain construction of
    the same string succeeds - [Email.create] takes the input alone, neither
    gate nor store. *)
Theorem end_to_end_attacker (setKey : string) (log : list (string * Error))
    (client : Valkey.GlideClient)
    (Hstore : Valkey.fault client = None) :
  let repo := ValkeyBannedEmailRepository setKey in
  let gate := RepositoryAntiSpamAdapter repo in
  let w := mkWorld log (snd (ban repo "Attacker@Example.COM" client)) in
  fst (ban repo "Attacker@Example.COM" client) = Normal tt
  /\ isBlocked gate "attacker@example.com" w = (Normal true, w)
  /\ Email.createWithAntiSpam "attacker@example.com" gate w
     = (Throw (Blocked "attacker@example.com"), w)
  /\ Email.create "attacker@example.com" = Normal (mkEmail "attacker@example.com").
Proof.
  intros repo gate w.
  assert (Hok : Valkey.fault (repository w) = None).
  { exact (after_fault_None setKey (CallBan "Attacker@Example.COM") client Hstore). }
  assert (Hmember : Js.toLowerCase "attacker@example.com" ∈ bannedSet setKey (repository w)).
  { change (repository w) with (after repo (CallBan "Attacker@Example.COM") client).
    unfold repo. rewrite bannedSet_after by assumption.
    apply elem_of_union_r, elem_of_singleton. reflexivity. }
  assert (Hgate : isBlocked gate "attacker@example.com" w = (Normal true, w)).
  { unfold gate, repo. rewrite isBlocked_ok by exact Hok.
    now rewrite bool_decide_eq_true_2 by exact Hmember. }
  split; [unfold repo; now rewrite ban_ok |].
  split; [exact Hgate |].
  split; [now rewrite createWithAntiSpam_eq, Hgate |].
  reflexivity.
Qed.

Lemma end_to_end_attacker_witness :
  let repo := ValkeyBannedEmailRepository DEFAULT_SET_KEY in
  let gate := RepositoryAntiSpamAdapter repo in
  let w := mkWorld [] (snd (ban repo "Attacker@Example.COM" freshClient)) in
  fst (ban repo "Attacker@Example.COM" freshClient) = Normal tt
  /\ isBlocked gate "attacker@example.com" w = (Normal true, w)
  /\ Email.createWithAntiSpam "attacker@example.com" gate w
     = (Throw (Blocked "attacker@example.com"), w)
  /\ Email.create "attacker@example.com" = Normal (mkEmail "attacker@example.com").
Proof.
  apply (end_to_end_attacker DEFAULT_SET_KEY [] freshClient). reflexivity.
Defined.

(** ** The repository's test suite, replayed on the embedding *)

Section ReplayedTests.
Let repo := ValkeyBannedEmailRepository DEFAULT_SET_KEY.
Let adapter := RepositoryAntiSpamAdapter repo.

Example should_be_case_insensitive :
  let client := afterAll repo [CallClear; CallBan "Spammer@Example.COM"] freshClient in
  fst (isBanned repo "spammer@example.com" client) = Normal true
  /\ fst (isBanned repo "SPAMMER@EXAMPLE.COM" client) = Normal true.
Proof. split; vm_compute; reflexivity. Qed.

Example should_unban_case_insensitively :
  let client := afterAll repo [CallClear; CallBan "Spammer@Example.COM";
                               CallUnban "spammer@example.com"] freshClient in
  fst (isBanned repo "SPAMMER@EXAMPLE.COM" client) = Normal false.
Proof. vm_compute. reflexivity. Qed.

Example should_not_include_duplicates :
  let client := afterAll repo [CallClear; CallBan "spam@example.com";
                               CallBan "SPAM@EXAMPLE.COM"] freshClient in
  fst (getAllBanned repo client) = Normal ["spam@example.com"].
Proof. vm_compute. reflexivity. Qed.

Example should_reflect_unban_operations :
  let client := afterAll repo [CallClear; CallBan "spam1@example.com";
                               CallBan "spam2@example.com";
                               CallUnban "spam1@example.com"] freshClient in
  fst (getAllBanned repo client) = Normal ["spam2@example.com"].
Proof. vm_compute. reflexivity. Qed.

Example should_manage_banned_emails_through_the_complete_flow :
  let w0 := mkWorld [] (after repo CallClear freshClient) in
  let w1 := mkWorld [] (after repo (CallBan "attacker@example.com") (repository w0)) in
  let w2 := mkWorld [] (after repo (CallUnban "attacker@example.com") (repository w1)) in
  fst (isBlocked adapter "attacker@example.com" w0) = Normal false
  /\ fst (isBlocked adapter "attacker@example.com" w1) = Normal true
  /\ fst (isBlocked adapter "legitimate@example.com" w1) = Normal false
  /\ fst (isBlocked adapter "attacker@example.com" w2) = Normal false.
Proof. repeat split; vm_compute; reflexivity. Qed.

Example john_doe :
  exists identity,
    Email.createWithAntiSpam "John.Doe@Example.COM" adapter (mkWorld [] freshClient)
      = (Normal identity, mkWorld [] freshClient)
    /\ Email.getDomain identity = Some "example.com"
    /\ Email.getUserPart identity = Some "john.doe".
Proof. exists (mkEmail "john.doe@example.com"). repeat split; vm_compute; reflexivity. Qed.

Example in_memory_gate_fails_open :
  isBlocked (RepositoryAntiSpamAdapter InMemoryBannedEmailRepository) "spammer@example.com"
    (mkWorld [] ∅)
  = (Normal false, mkWorld [("Failed to check banned email list:", notImplemented)] ∅).
Proof. reflexivity. Qed.

End ReplayedTests.

(** * Further properties of the sources *)

(** ** Validity and letter case *)

Section CaseFacts.

Lemma toLowerCaseUnit_at (c : ascii) : Js.toLowerCaseUnit c = "@"%char <-> c = "@"%char.
Proof. destruct c as [[] [] [] [] [] [] [] []]; split; intros H; (reflexivity || discriminate H). Qed.

Lemma toLowerCaseUnit_dot (c : ascii) : Js.toLowerCaseUnit c = "."%char <-> c = "."%char.
Proof. destruct c as [[] [] [] [] [] [] [] []]; split; intros H; (reflexivity || discriminate H). Qed.

Lemma addressUnit_toLowerCaseUnit (c : ascii) :
  addressUnit (Js.toLowerCaseUnit c) = addressUnit c.
Proof. destruct c as [[] [] [] [] [] [] [] []]; reflexivity. Qed.

(** On code units below 256 lower-casing keeps the length.  (Outside that
    range the built-in can lengthen a string: U+0130 becomes two units.) *)
Lemma length_toLowerCase (s : string) : String.length (Js.toLowerCase s) = String.length s.
Proof. induction s as [|c s IH]; simpl; [reflexivity | now rewrite IH]. Qed.

Lemma length_append_string (s t : string) :
  String.length (s ++ t) = String.length s + String.length t.
Proof. induction s as [|c s IH]; simpl; [reflexivity | now rewrite IH]. Qed.

Lemma every_toLowerCase (f : ascii -> bool) (s : string) :
  (forall c, f (Js.toLowerCaseUnit c) = f c) ->
  Js.every f (Js.toLowerCase s) = Js.every f s.
Proof. intros Hf. induction s as [|c s IH]; simpl; [reflexivity | now rewrite Hf, IH]. Qed.

Lemma toLowerCase_empty (s : string) : Js.toLowerCase s = "" <-> s = "".
Proof. destruct s; simpl; split; intros H; (reflexivity || discriminate H). Qed.

Lemma toLowerCase_append_inv (s a b : string) :
  Js.toLowerCase s = a ++ b ->
  exists s1 s2, s = s1 ++ s2 /\ Js.toLowerCase s1 = a /\ Js.toLowerCase s2 = b.
Proof.
  revert s. induction a as [|x a IH]; intros s H.
  - exists "", s. auto.
  - destruct s as [|c s]; [discriminate H |]. simpl in H. injection H as Hc Hs.
    destruct (IH s Hs) as (s1 & s2 & -> & H1 & H2).
    exists (String c s1), s2. simpl. now rewrite Hc, H1.
Qed.

Lemma toLowerCase_cons_inv (s t : string) (x : ascii) :
  Js.toLowerCase s = String x t ->
  exists c s', s = String c s' /\ Js.toLowerCaseUnit c = x /\ Js.toLowerCase s' = t.
Proof.
  destruct s as [|c s]; [discriminate |]. simpl. intros H. injection H as Hc Hs. eauto.
Qed.

Lemma EMAIL_REGEX_AddressShape (s : string) :
  RegExp.test Email.EMAIL_REGEX s = true <-> AddressShape s.
Proof. apply EMAIL_REGEX_shape. Qed.

Lemma AddressShape_toLowerCase (s : string) :
  AddressShape (Js.toLowerCase s) <-> AddressShape s.
Proof.
  split.
  - intros (l' & d' & t' & E & Hl & Hd & Ht & El & Ed & Et).
    apply toLowerCase_append_inv in E as (l & r1 & -> & <- & E).
    apply toLowerCase_cons_inv in E as (a & r2 & -> & ->%toLowerCaseUnit_at & E).
    apply toLowerCase_append_inv in E as (d & r3 & -> & <- & E).
    apply toLowerCase_cons_inv in E as (b & t & -> & ->%toLowerCaseUnit_dot & <-).
    rewrite every_toLowerCase in El, Ed, Et by apply addressUnit_toLowerCaseUnit.
    exists l, d, t. rewrite !toLowerCase_empty in *. repeat split; auto.
  - intros (l & d & t & -> & Hl & Hd & Ht & El & Ed & Et).
    exists (Js.toLowerCase l), (Js.toLowerCase d), (Js.toLowerCase t).
    rewrite !every_toLowerCase by apply addressUnit_toLowerCaseUnit.
    rewrite !toLowerCase_empty. repeat split; auto.
    rewrite toLowerCase_append.
    change ("@" ++ d ++ "." ++ t) with (String "@" (d ++ String "." t)).
    cbn [Js.toLowerCase]. rewrite toLowerCase_append. reflexivity.
Qed.

Lemma test_EMAIL_REGEX_toLowerCase (s : string) :
  RegExp.test Email.EMAIL_REGEX (Js.toLowerCase s) = RegExp.test Email.EMAIL_REGEX s.
Proof.
  destruct (RegExp.test Email.EMAIL_REGEX s) eqn:T.
  - now apply EMAIL_REGEX_AddressShape, AddressShape_toLowerCase, EMAIL_REGEX_AddressShape.
  - destruct (RegExp.test Email.EMAIL_REGEX (Js.toLowerCase s)) eqn:T'; [|reflexivity].
    apply (proj1 (EMAIL_REGEX_AddressShape _)) in T'.
    apply (proj1 (AddressShape_toLowerCase _)) in T'.
    apply (proj2 (EMAIL_REGEX_AddressShape _)) in T'.
    congruence.
Qed.

Lemma ascii_dec_dot_toLowerCaseUnit {A} (c : ascii) (x y : A) :
  (if ascii_dec "." (Js.toLowerCaseUnit c) then x else y) = (if ascii_dec "." c then x else y).
Proof.
  destruct (ascii_dec "." (Js.toLowerCaseUnit c)) as [E|E], (ascii_dec "." c) as [E'|E'];
    try reflexivity.
  - symmetry in E. apply (proj1 (toLowerCaseUnit_dot c)) in E. congruence.
  - subst c. now destruct E.
Qed.

Lemma includes_dots_toLowerCase (s : string) :
  Js.includes (Js.toLowerCase s) ".." = Js.includes s "..".
Proof.
  induction s as [|c s IH]; [reflexivity |].
  cbn [Js.toLowerCase Js.includes]. rewrite IH. f_equal.
  cbn [Js.startsWith]. rewrite ascii_dec_dot_toLowerCaseUnit.
  destruct s as [|c' s]; [reflexivity |].
  cbn [Js.toLowerCase Js.startsWith].
  now rewrite ascii_dec_dot_toLowerCaseUnit, !startsWith_empty.
Qed.

(** Validity does not depend on letter case. *)
Lemma isValid_toLowerCase (s : string) :
  Email.isValid (Js.toLowerCase s) = Email.isValid s.
Proof.
  unfold Email.isValid, Email.hasConsecutiveDots.
  now rewrite length_toLowerCase, includes_dots_toLowerCase, test_EMAIL_REGEX_toLowerCase.
Qed.

Lemma AddressShape_noWhiteSpace (s : string) :
  AddressShape s -> Js.noWhiteSpace s = true.
Proof.
  intros (l & d & t & -> & _ & _ & _ & El & Ed & Et).
  assert (H : forall u, Js.every addressUnit u = true -> Js.noWhiteSpace u = true).
  { intros u. apply every_impl. intros c Hc. now rewrite (addressUnit_not_white c Hc). }
  unfold Js.noWhiteSpace in *.
  change ("@" ++ d ++ "." ++ t) with (String "@" (d ++ String "." t)).
  rewrite every_append. cbn [Js.every]. rewrite every_append. cbn [Js.every].
  now rewrite (H l El), (H d Ed), (H t Et).
Qed.



Lemma length_trim (s : string) : String.length (Js.trim s) <= String.length s.
Proof.
  destruct (trim_decompose s) as (w1 & w2 & Hs & _).
  rewrite Hs at 2. rewrite !length_append_string. lia.
Qed.

Lemma AddressShape_length (s : string) : AddressShape s -> 5 <= String.length s.
Proof.
  intros (l & d & t & -> & Hl & Hd & Ht & _).
  change ("@" ++ d ++ "." ++ t) with (String "@" (d ++ String "." t)).
  rewrite length_append_string. cbn [String.length]. rewrite length_append_string.
  cbn [String.length].
  destruct l, d, t; try congruence. cbn [String.length]. lia.
Qed.

Lemma isValid_inv (s : string) :
  Email.isValid s = true ->
  AddressShape s /\ String.length s <= 254 /\ Js.includes s ".." = false.
Proof.
  unfold Email.isValid, Email.hasConsecutiveDots.
  intros [[[_ Hlen]%andb_true_iff Hdots]%andb_true_iff Htest]%andb_true_iff.
  split; [now apply EMAIL_REGEX_AddressShape |].
  split; [now apply Nat.leb_le | now apply negb_true_iff].
Qed.

Lemma create_Normal_inv (input : string) (identity : EmailObject) :
  Email.create input = Normal identity ->
  Email.isValid (Js.trim input) = true
  /\ identity = mkEmail (Js.toLowerCase (Js.trim input)).
Proof.
  rewrite create_eq. destruct (Email.isValid (Js.trim input)); [|discriminate].
  intros H. injection H as <-. auto.
Qed.

Lemma every_differsFrom_includes (c : ascii) (s : string) :
  Js.every (differsFrom c) s = true -> Js.includes s (String c "") = false.
Proof.
  induction s as [|d s IH]; [reflexivity |].
  cbn [Js.every Js.includes Js.startsWith]. unfold differsFrom at 1.
  intros [Hd Hs]%andb_true_iff. rewrite (IH Hs).
  destruct (ascii_dec d c) as [|Hne]; [discriminate Hd |].
  destruct (ascii_dec c d); [congruence | reflexivity].
Qed.

End CaseFacts.

(** ** Identities *)

(** X1. [Email.isValid] accepts exactly the strings of at most 254 code
    units, without two consecutive dots, of the shape [local@left.right]
    with three non-empty pieces free of white space and [@]; the test
    [length > 0] adds nothing. *)
Theorem isValid_exactly (s : string) :
  Email.isValid s = true <->
  AddressShape s /\ String.length s <= 254 /\ Js.includes s ".." = false.
Proof.
  split; [apply isValid_inv |].
  intros (Hshape & Hlen & Hdots). unfold Email.isValid, Email.hasConsecutiveDots.
  pose proof (AddressShape_length s Hshape) as H5.
  rewrite Hdots, (proj2 (EMAIL_REGEX_AddressShape s) Hshape).
  rewrite (proj2 (Nat.leb_le _ _) Hlen).
  now rewrite (proj2 (Nat.ltb_lt 0 _)) by lia.
Qed.

(** X2. On every identity that was constructed, [getUserPart] and [getDomain]
    are defined and put back together with an [@] they give the stored
    value; the user part is not empty and holds no [@], the domain holds a
    dot and no [@], and the value holds no white space. *)
Theorem accessors_reassemble_value (input : string) (identity : EmailObject)
    (Hcreated : Email.create input = Normal identity) :
  exists userPart domain,
    Email.getUserPart identity = Some userPart
    /\ Email.getDomain identity = Some domain
    /\ value identity = userPart ++ "@" ++ domain
    /\ userPart <> ""
    /\ Js.includes userPart "@" = false
    /\ Js.includes domain "@" = false
    /\ Js.includes domain "." = true
    /\ Js.noWhiteSpace (value identity) = true.
Proof.
  apply create_Normal_inv in Hcreated as [Hvalid ->].
  rewrite <- isValid_toLowerCase in Hvalid.
  apply isValid_inv in Hvalid as [Hshape _].
  pose proof (AddressShape_noWhiteSpace _ Hshape) as Hwhite.
  destruct Hshape as (l & d & t & E & Hl & _ & _ & El & Ed & Et).
  assert (Ldiff : Js.every (differsFrom "@") l = true)
    by exact (every_impl _ _ l addressUnit_not_at El).
  assert (Ddiff : Js.every (differsFrom "@") (d ++ String "." t) = true).
  { rewrite every_append. cbn [Js.every].
    now rewrite (every_impl _ _ d addressUnit_not_at Ed),
      (every_impl _ _ t addressUnit_not_at Et). }
  exists l, (d ++ String "." t).
  unfold Email.getUserPart, Email.getDomain. cbn [value]. rewrite E.
  change ("@" ++ d ++ "." ++ t) with (String "@" (d ++ String "." t)).
  rewrite (split_append_sep "@" l _ Ldiff), (split_without "@" _ Ddiff).
  repeat split; auto.
  - now apply every_differsFrom_includes.
  - now apply every_differsFrom_includes.
  - apply includes_unit_append.
  - change (String "@" (d ++ String "." t)) with ("@" ++ d ++ "." ++ t).
    now rewrite <- E.
Qed.

Lemma accessors_reassemble_value_witness :
  exists userPart domain,
    Email.getUserPart (mkEmail "john.doe@example.com") = Some userPart
    /\ Email.getDomain (mkEmail "john.doe@example.com") = Some domain
    /\ value (mkEmail "john.doe@example.com") = userPart ++ "@" ++ domain
    /\ userPart <> ""
    /\ Js.includes userPart "@" = false
    /\ Js.includes domain "@" = false
    /\ Js.includes domain "." = true
    /\ Js.noWhiteSpace (value (mkEmail "john.doe@example.com")) = true.
Proof.
  apply (accessors_reassemble_value " John.Doe@Example.COM "). reflexivity.
Defined.



(** X4. An input is accepted only if its trimmed form has between 5 and 254
    code units, and that form is never longer than the input: the pattern
    forces at least five units, so the test [length > 0] never decides. *)
Theorem accepted_length_bounds (input : string) (identity : EmailObject)
    (Hcreated : Email.create input = Normal identity) :
  5 <= String.length (Js.trim input) <= 254
  /\ String.length (Js.trim input) <= String.length input.
Proof.
  apply create_Normal_inv in Hcreated as [Hvalid _].
  apply isValid_inv in Hvalid as (Hshape & Hlen & _).
  pose proof (AddressShape_length _ Hshape). pose proof (length_trim input). lia.
Qed.

Lemma accepted_length_bounds_witness :
  5 <= String.length (Js.trim " A@B.C ") <= 254
  /\ String.length (Js.trim " A@B.C ") <= String.length " A@B.C ".
Proof.
  apply (accepted_length_bounds " A@B.C " (mkEmail "a@b.c")). reflexivity.
Defined.



(** X6. Plain construction never fails with Blocked; and the two rejections
    cannot be confused, each carrying its input recoverably. *)
Theorem rejections_distinct (a b : string) :
  Email.create a <> Throw (Blocked b)
  /\ InvalidFormat a <> Blocked b
  /\ (InvalidFormat a = InvalidFormat b <-> a = b)
  /\ (Blocked a = Blocked b <-> a = b).
Proof.
  assert (Hne : InvalidFormat a <> Blocked b) by (intros H; discriminate H).
  split; [|split; [exact Hne |]].
  - rewrite create_eq. destruct (Email.isValid (Js.trim a)); [discriminate |].
    intros H. injection H as H. discriminate H.
  - split; (split; [intros H | now intros ->]).
    + injection H as H. exact H.
    + injection H as H. exact H.
Qed.

(** ** More on the Valkey repository *)

Section RepositoryMore.
Import Valkey.

Lemma setAt_putSet_ne (key key' : string) (X : gset string) (ks : gmap string (gset string)) :
  key <> key' -> setAt key' (putSet key X ks) = setAt key' ks.
Proof.
  intros Hne. unfold setAt, putSet. destruct (decide (X = ∅)).
  - now rewrite lookup_delete_ne.
  - now rewrite lookup_insert_ne.
Qed.

Variable setKey : string.
Let repo := ValkeyBannedEmailRepository setKey.

Lemma method_fault (client : GlideClient) (e : Error) (email : string) :
  fault client = Some e ->
  isBanned repo email client = (Throw e, client)
  /\ ban repo email client = (Throw e, client)
  /\ unban repo email client = (Throw e, client)
  /\ getAllBanned repo client = (Throw e, client)
  /\ clear repo client = (Throw e, client).
Proof.
  intros H. unfold repo, isBanned, ban, unban, getAllBanned, clear,
    ValkeyBannedEmailRepository, sismember, sadd, srem, smembers, del, mbind, async_bind.
  now rewrite !(request_fault _ _ e H).
Qed.

Lemma fault_after (c : Call) (client : GlideClient) :
  fault (after repo c client) = fault client.
Proof.
  destruct (fault client) as [e|] eqn:H.
  - unfold repo. now rewrite (after_fault setKey c client e H).
  - now apply after_fault_None.
Qed.

Lemma fault_afterAll (calls : list Call) (client : GlideClient) :
  fault (afterAll repo calls client) = fault client.
Proof.
  revert client. induction calls as [|c calls IH]; intros client; [reflexivity |].
  change (afterAll repo (c :: calls) client) with (afterAll repo calls (after repo c client)).
  now rewrite IH, fault_after.
Qed.

Lemma isBanned_result (email : string) (client : GlideClient) :
  fst (isBanned repo email client) =
    match fault client with
    | Some e => Throw e
    | None => Normal (bool_decide (Js.toLowerCase email ∈ bannedSet setKey client))
    end.
Proof.
  destruct (fault client) as [e|] eqn:H.
  - now destruct (method_fault client e email H) as [-> _].
  - unfold repo. now rewrite isBanned_ok.
Qed.

Lemma after_ban_state (x : string) (client : GlideClient) :
  fault client = None ->
  after repo (CallBan x) client =
    mkClient (putSet setKey (bannedSet setKey client ∪ {[Js.toLowerCase x]}) (keyspace client))
      None.
Proof. intros H. unfold after, repo. now rewrite ban_ok. Qed.

Lemma after_unban_state (x : string) (client : GlideClient) :
  fault client = None ->
  after repo (CallUnban x) client =
    mkClient (putSet setKey (bannedSet setKey client ∖ {[Js.toLowerCase x]}) (keyspace client))
      None.
Proof. intros H. unfold after, repo. now rewrite unban_ok. Qed.

Lemma after_clear_state (client : GlideClient) :
  fault client = None ->
  after repo CallClear client = mkClient (delete setKey (keyspace client)) None.
Proof. intros H. unfold after, repo. now rewrite clear_ok. Qed.

Lemma member_kept (x : string) (calls : list Call) (client : GlideClient) :
  fault client = None ->
  Js.toLowerCase x ∈ bannedSet setKey client ->
  Forall (keeps x) calls ->
  Js.toLowerCase x ∈ bannedSet setKey (afterAll repo calls client).
Proof.
  revert client. induction calls as [|c calls IH]; intros client H Hx Hkeeps; [exact Hx |].
  change (afterAll repo (c :: calls) client) with (afterAll repo calls (after repo c client)).
  apply Forall_cons in Hkeeps as [Hc Hkeeps].
  apply IH; [now apply after_fault_None | | exact Hkeeps].
  unfold repo. rewrite bannedSet_after by assumption.
  destruct c; cbn [keeps] in Hc; try assumption.
  - apply elem_of_union_l. exact Hx.
  - apply elem_of_difference. split; [exact Hx |].
    intros E%elem_of_singleton. congruence.
  - destruct Hc.
Qed.

Lemma bannedSet_other_key (key' : string) (c : Call) (client : GlideClient) :
  setKey <> key' -> bannedSet key' (after repo c client) = bannedSet key' client.
Proof.
  intros Hne. destruct (fault client) as [e|] eqn:H.
  - unfold repo. now rewrite (after_fault setKey c client e H).
  - destruct c.
    + unfold after, repo. now rewrite isBanned_ok.
    + rewrite after_ban_state by assumption. unfold bannedSet at 1. cbn [keyspace].
      now apply setAt_putSet_ne.
    + rewrite after_unban_state by assumption. unfold bannedSet at 1. cbn [keyspace].
      now apply setAt_putSet_ne.
    + unfold after, repo. now rewrite getAllBanned_ok.
    + rewrite after_clear_state by assumption. unfold bannedSet, setAt. cbn [keyspace].
      now rewrite lookup_delete_ne.
Qed.

End RepositoryMore.

(** X7. The Valkey repository adds no resilience of its own: when the store
    cannot be reached, each of its five methods rejects with the very error
    of the client and leaves the client as it was. *)
Theorem repository_failure_transparent (setKey email : string)
    (client : Valkey.GlideClient) (e : Error)
    (Hdown : Valkey.fault client = Some e) :
  let repo := ValkeyBannedEmailRepository setKey in
  isBanned repo email client = (Throw e, client)
  /\ ban repo email client = (Throw e, client)
  /\ unban repo email client = (Throw e, client)
  /\ getAllBanned repo client = (Throw e, client)
  /\ clear repo client = (Throw e, client).
Proof. exact (method_fault setKey client e email Hdown). Qed.

Lemma repository_failure_transparent_witness :
  let repo := ValkeyBannedEmailRepository DEFAULT_SET_KEY in
  let e := mkError "connection closed" in
  let client := Valkey.mkClient {[ DEFAULT_SET_KEY := {[ "spam@example.com" ]} ]} (Some e) in
  isBanned repo "spam@example.com" client = (Throw e, client)
  /\ ban repo "spam@example.com" client = (Throw e, client)
  /\ unban repo "spam@example.com" client = (Throw e, client)
  /\ getAllBanned repo client = (Throw e, client)
  /\ clear repo client = (Throw e, client).
Proof.
  intros repo e client.
  apply (repository_failure_transparent DEFAULT_SET_KEY "spam@example.com" client e).
  reflexivity.
Defined.

(** X8. Repositories built on the same client with different keys do not see
    each other: whatever calls are made on one, the BannedSet of the other
    and every answer of its [isBanned] stay the same. *)
Theorem repositories_isolated (key1 key2 email : string) (calls : list Call)
    (client : Valkey.GlideClient)
    (Hkeys : key1 <> key2) :
  let client' := afterAll (ValkeyBannedEmailRepository key1) calls client in
  bannedSet key2 client' = bannedSet key2 client
  /\ fst (isBanned (ValkeyBannedEmailRepository key2) email client')
     = fst (isBanned (ValkeyBannedEmailRepository key2) email client).
Proof.
  intros client'.
  assert (Hset : bannedSet key2 client' = bannedSet key2 client).
  { subst client'. revert client. induction calls as [|c calls IH]; intros client; [reflexivity |].
    change (afterAll (ValkeyBannedEmailRepository key1) (c :: calls) client)
      with (afterAll (ValkeyBannedEmailRepository key1) calls
              (after (ValkeyBannedEmailRepository key1) c client)).
    now rewrite IH, bannedSet_other_key. }
  split; [exact Hset |].
  rewrite !isBanned_result, Hset. subst client'. now rewrite fault_afterAll.
Qed.

Lemma repositories_isolated_witness :
  let client' := afterAll (ValkeyBannedEmailRepository "banned:emails")
                   [CallBan "a@b.c"; CallClear; CallBan "spam@example.com"]
                   (snd (ban (ValkeyBannedEmailRepository "other") "spam@example.com"
                           freshClient)) in
  bannedSet "other" client'
    = bannedSet "other" (snd (ban (ValkeyBannedEmailRepository "other") "spam@example.com"
                                freshClient))
  /\ fst (isBanned (ValkeyBannedEmailRepository "other") "a@b.c" client')
     = fst (isBanned (ValkeyBannedEmailRepository "other") "a@b.c"
              (snd (ban (ValkeyBannedEmailRepository "other") "spam@example.com"
                      freshClient))).
Proof.
  apply (repositories_isolated "banned:emails" "other" "a@b.c").
  discriminate.
Defined.

(** X9. Calls about different addresses commute: banning [x] and unbanning
    [y], in either order, leave the same store when [x] and [y] differ once
    lower-cased; so do two bans, and two unbans, of any addresses. *)
Theorem calls_commute (setKey x y : string) (client : Valkey.GlideClient)
    (Hxy : Js.toLowerCase x <> Js.toLowerCase y) :
  let repo := ValkeyBannedEmailRepository setKey in
  afterAll repo [CallBan x; CallUnban y] client = afterAll repo [CallUnban y; CallBan x] client
  /\ afterAll repo [CallBan x; CallBan y] client = afterAll repo [CallBan y; CallBan x] client
  /\ afterAll repo [CallUnban x; CallUnban y] client
     = afterAll repo [CallUnban y; CallUnban x] client.
Proof.
  intros repo. unfold afterAll. cbn [fold_left].
  destruct (Valkey.fault client) as [e|] eqn:H.
  - unfold repo. now rewrite !(after_fault setKey _ client e H).
  - unfold repo.
    rewrite !(after_ban_state setKey _ client H), !(after_unban_state setKey _ client H).
    rewrite !after_ban_state, !after_unban_state by reflexivity.
    unfold bannedSet. cbn [Valkey.keyspace].
    rewrite !setAt_putSet, !putSet_putSet.
    repeat split; do 2 f_equal; set_solver.
Qed.

Lemma calls_commute_witness :
  let repo := ValkeyBannedEmailRepository DEFAULT_SET_KEY in
  let x := "Spam1@Example.com" in
  let y := "spam2@example.com" in
  afterAll repo [CallBan x; CallUnban y] freshClient
    = afterAll repo [CallUnban y; CallBan x] freshClient
  /\ afterAll repo [CallBan x; CallBan y] freshClient
     = afterAll repo [CallBan y; CallBan x] freshClient
  /\ afterAll repo [CallUnban x; CallUnban y] freshClient
     = afterAll repo [CallUnban y; CallUnban x] freshClient.
Proof.
  apply (calls_commute DEFAULT_SET_KEY "Spam1@Example.com" "spam2@example.com" freshClient).
  vm_compute. discriminate.
Defined.

(** X10. On a store that answers, [clear] forgets everything: afterwards no
    address is banned; a second [clear] changes nothing; [clear] completes
    even when the key is missing; and an address banned after [clear] is the
    only one listed, in lower case. *)
Theorem clear_resets (setKey x y : string) (client : Valkey.GlideClient)
    (Hstore : Valkey.fault client = None) :
  let repo := ValkeyBannedEmailRepository setKey in
  fst (clear repo client) = Normal tt
  /\ fst (isBanned repo y (after repo CallClear client)) = Normal false
  /\ afterAll repo [CallClear; CallClear] client = after repo CallClear client
  /\ fst (getAllBanned repo (afterAll repo [CallClear; CallBan x] client))
     = Normal [Js.toLowerCase x].
Proof.
  intros repo. unfold repo. split; [now rewrite clear_ok |]. split; [|split].
  - rewrite isBanned_result, after_fault_None, bannedSet_after by assumption.
    now rewrite bool_decide_eq_false_2 by apply not_elem_of_empty.
  - unfold afterAll. cbn [fold_left].
    rewrite (after_clear_state setKey client Hstore).
    rewrite after_clear_state by reflexivity. cbn [Valkey.keyspace].
    now rewrite delete_delete_eq.
  - rewrite getAllBanned_ok by now apply afterAll_fault_None.
    unfold afterAll. cbn [fold_left fst].
    rewrite bannedSet_after by now apply after_fault_None.
    rewrite bannedSet_after by assumption.
    rewrite union_empty_l_L, elements_singleton. cbn.
    now rewrite toLowerCase_idem.
Qed.

Lemma clear_resets_witness :
  let repo := ValkeyBannedEmailRepository DEFAULT_SET_KEY in
  fst (clear repo freshClient) = Normal tt
  /\ fst (isBanned repo "spam1@example.com" (after repo CallClear freshClient)) = Normal false
  /\ afterAll repo [CallClear; CallClear] freshClient = after repo CallClear freshClient
  /\ fst (getAllBanned repo (afterAll repo [CallClear; CallBan "Spam2@Example.com"] freshClient))
     = Normal [Js.toLowerCase "Spam2@Example.com"].
Proof.
  apply (clear_resets DEFAULT_SET_KEY "Spam2@Example.com" "spam1@example.com" freshClient).
  reflexivity.
Defined.

(** X11. On a store that answers and holds lower-cased members only,
    enumeration and membership test agree: [isBanned(e)] returns [true]
    exactly when the lower-cased [e] is in the list [getAllBanned] returns. *)
Theorem getAllBanned_agrees_isBanned (setKey e : string) (client : Valkey.GlideClient)
    (Hstore : Valkey.fault client = None)
    (Hinv : allLowerCased (bannedSet setKey client)) :
  let repo := ValkeyBannedEmailRepository setKey in
  exists l, fst (getAllBanned repo client) = Normal l
            /\ (fst (isBanned repo e client) = Normal true <-> Js.toLowerCase e ∈ l).
Proof.
  intros repo. exists (elements (bannedSet setKey client)). unfold repo.
  rewrite getAllBanned_ok, isBanned_ok by assumption. cbn [fst].
  rewrite elements_lower_cased by assumption. split; [reflexivity |].
  rewrite elem_of_elements. split.
  - intros H. injection H as H. now apply bool_decide_eq_true in H.
  - intros H. f_equal. now apply bool_decide_eq_true.
Qed.

Lemma getAllBanned_agrees_isBanned_witness :
  let repo := ValkeyBannedEmailRepository DEFAULT_SET_KEY in
  let client := after repo (CallBan "Spam@Example.com") freshClient in
  exists l, fst (getAllBanned repo client) = Normal l
            /\ (fst (isBanned repo "SPAM@example.COM" client) = Normal true
                <-> Js.toLowerCase "SPAM@example.COM" ∈ l).
Proof.
  intros repo client.
  apply (getAllBanned_agrees_isBanned DEFAULT_SET_KEY "SPAM@example.COM" client).
  - reflexivity.
  - apply (allLowerCased_after DEFAULT_SET_KEY (CallBan "Spam@Example.com") freshClient).
    intros m Hm. now apply not_elem_of_empty in Hm.
Defined.

(** X12. Whatever the store holds under the key, also members another
    writer put there in upper case, [getAllBanned] returns lower-cased
    entries only: one entry per stored member, each the lower-cased form of
    a member. *)
Theorem getAllBanned_lower_cases (setKey : string) (client : Valkey.GlideClient)
    (Hstore : Valkey.fault client = None) :
  exists l, fst (getAllBanned (ValkeyBannedEmailRepository setKey) client) = Normal l
            /\ Forall (fun m => Js.toLowerCase m = m) l
            /\ length l = size (bannedSet setKey client)
            /\ forall m, m ∈ l <-> exists s, s ∈ bannedSet setKey client /\ m = Js.toLowerCase s.
Proof.
  exists (Js.toLowerCase <$> elements (bannedSet setKey client)).
  rewrite getAllBanned_ok by assumption. split; [reflexivity |]. split; [|split].
  - apply Forall_fmap, Forall_forall. intros m _. apply toLowerCase_idem.
  - now rewrite length_fmap.
  - intros m. rewrite list_elem_of_fmap. split.
    + intros (s & -> & Hs). exists s. now rewrite <- elem_of_elements.
    + intros (s & Hs & ->). exists s. now rewrite elem_of_elements.
Qed.

Lemma getAllBanned_lower_cases_witness :
  let client := Valkey.mkClient {[ DEFAULT_SET_KEY := {[ "Spam@Example.COM"; "x@y.z" ]} ]} None in
  exists l, fst (getAllBanned (ValkeyBannedEmailRepository DEFAULT_SET_KEY) client) = Normal l
            /\ Forall (fun m => Js.toLowerCase m = m) l
            /\ length l = size (bannedSet DEFAULT_SET_KEY client)
            /\ forall m, m ∈ l <-> exists s, s ∈ bannedSet DEFAULT_SET_KEY client
                                             /\ m = Js.toLowerCase s.
Proof.
  intros client. apply (getAllBanned_lower_cases DEFAULT_SET_KEY client). reflexivity.
Defined.

(** X13. On a store that answers, a ban lasts: after [ban(x)] and any further
    calls among which there is no [clear] and no [unban] of an address that
    lower-cases like [x], [isBanned(x)] returns [true]. *)
Theorem ban_persists (setKey x : string) (calls : list Call) (client : Valkey.GlideClient)
    (Hstore : Valkey.fault client = None)
    (Hkeeps : Forall (keeps x) calls) :
  let repo := ValkeyBannedEmailRepository setKey in
  fst (isBanned repo x (afterAll repo (CallBan x :: calls) client)) = Normal true.
Proof.
  intros repo. unfold repo.
  rewrite isBanned_ok by now apply afterAll_fault_None.
  cbn [fst]. f_equal. apply bool_decide_eq_true.
  change (afterAll (ValkeyBannedEmailRepository setKey) (CallBan x :: calls) client)
    with (afterAll (ValkeyBannedEmailRepository setKey) calls
            (after (ValkeyBannedEmailRepository setKey) (CallBan x) client)).
  apply member_kept; [now apply after_fault_None | | exact Hkeeps].
  rewrite bannedSet_after by assumption.
  apply elem_of_union_r, elem_of_singleton. reflexivity.
Qed.

Lemma ban_persists_witness :
  let repo := ValkeyBannedEmailRepository DEFAULT_SET_KEY in
  fst (isBanned repo "Persistent@Example.com"
         (afterAll repo (CallBan "Persistent@Example.com"
                           :: [CallBan "other@example.com"; CallUnban "other@example.com";
                               CallIsBanned "persistent@example.com"; CallGetAllBanned])
            freshClient)) = Normal true.
Proof.
  apply (ban_persists DEFAULT_SET_KEY "Persistent@Example.com"
           [CallBan "other@example.com"; CallUnban "other@example.com";
            CallIsBanned "persistent@example.com"; CallGetAllBanned] freshClient).
  - reflexivity.
  - repeat constructor. vm_compute. discriminate.
Defined.

(** ** More on the gate *)

(** X14. Asking the gate never writes to the store: [isBlocked] and
    [createWithAntiSpam] on a Valkey-backed gate leave the client as it was,
    and print one line on the console exactly when the store cannot be
    reached. *)
Theorem gate_leaves_store (setKey input : string) (w : World Valkey.GlideClient) :
  let gate := RepositoryAntiSpamAdapter (ValkeyBannedEmailRepository setKey) in
  let reported :=
    match Valkey.fault (repository w) with
    | None => w
    | Some e =>
        mkWorld (console w ++ [("Failed to check banned email list:", e)]) (repository w)
    end in
  snd (isBlocked gate input w) = reported
  /\ snd (Email.createWithAntiSpam input gate w) = reported.
Proof.
  intros gate reported. subst gate reported.
  assert (Hgate : isBlocked (RepositoryAntiSpamAdapter (ValkeyBannedEmailRepository setKey))
                    input w
                  = (match Valkey.fault (repository w) with
                     | None => Normal (bool_decide (Js.toLowerCase input
                                                    ∈ bannedSet setKey (repository w)))
                     | Some _ => Normal false
                     end,
                     match Valkey.fault (repository w) with
                     | None => w
                     | Some e =>
                         mkWorld (console w ++ [("Failed to check banned email list:", e)])
                           (repository w)
                     end)).
  { destruct (Valkey.fault (repository w)) as [e|] eqn:H.
    - destruct w as [log [ks f]]. cbn in H. subst f. apply isBlocked_store_unavailable.
    - now apply isBlocked_ok. }
  rewrite createWithAntiSpam_eq, Hgate. split; [reflexivity |].
  destruct (Valkey.fault (repository w));
    [reflexivity | now destruct (bool_decide _)].
Qed.

(** X15. Fail-open reaches construction: when the repository's [isBanned]
    throws, anti-spam-aware construction on the gate built on it behaves as
    plain construction - a banned address is then constructed - and the error
    is left on the console. *)
Theorem createWithAntiSpam_fail_open {R : Type} (bannedEmailRepository : BannedEmailRepository R)
    (input : string) (w : World R) (e : Error) (r : R)
    (Hthrows : isBanned bannedEmailRepository input (repository w) = (Throw e, r)) :
  Email.createWithAntiSpam input (RepositoryAntiSpamAdapter bannedEmailRepository) w
  = (Email.create input,
     mkWorld (console w ++ [("Failed to check banned email list:", e)]) r).
Proof.
  rewrite createWithAntiSpam_eq.
  rewrite isBlocked_eq, Hthrows.
  reflexivity.
Qed.

Lemma createWithAntiSpam_fail_open_witness :
  Email.createWithAntiSpam "spammer@example.com"
    (RepositoryAntiSpamAdapter InMemoryBannedEmailRepository) (mkWorld [] ∅)
  = (Email.create "spammer@example.com",
     mkWorld ([] ++ [("Failed to check banned email list:", notImplemented)]) ∅).
Proof.
  apply (createWithAntiSpam_fail_open InMemoryBannedEmailRepository "spammer@example.com"
           (mkWorld [] ∅) notImplemented ∅).
  reflexivity.
Defined.

(** ** The other classes *)

Section OtherClasses.

Lemma split_nonempty (sep : ascii) (s : string) :
  exists piece rest, Js.split sep s = piece :: rest.
Proof.
  induction s as [|c s (piece & rest & IH)]; cbn; [eauto |].
  destruct (ascii_dec c sep); [eauto |]. rewrite IH. eauto.
Qed.

Lemma getUserPart_defined (email : EmailObject) :
  exists userPart, Email.getUserPart email = Some userPart.
Proof.
  unfold Email.getUserPart.
  destruct (split_nonempty "@" (value email)) as (piece & rest & ->). now exists piece.
Qed.

Lemma allowedInitials_length (x : list N) :
  x ∈ emailValidatorServiceAllowsNamesA_K.allowedInitials -> length x = 1.
Proof.
  unfold emailValidatorServiceAllowsNamesA_K.allowedInitials.
  rewrite elem_of_list_to_set. cbn. intros H.
  repeat (apply elem_of_cons in H as [->|H]; [reflexivity |]).
  now apply elem_of_nil in H.
Qed.

Lemma toUpperCaseUnit_length (c : ascii) : 1 <= length (Js.toUpperCaseUnit c).
Proof.
  unfold Js.toUpperCaseUnit.
  repeat match goal with |- context [if ?b then _ else _] => destruct b end; cbn; lia.
Qed.

Lemma allowedInitials_single (c : ascii) :
  bool_decide (Js.toUpperCase (String c "") ∈ emailValidatorServiceAllowsNamesA_K.allowedInitials)
  = letterAK c.
Proof. destruct c as [[] [] [] [] [] [] [] []]; vm_compute; reflexivity. Qed.

End OtherClasses.

(** X16. [emailValidatorServiceAllowsNamesA_K.isValid] never throws.  It
    compares the upper-cased user part as a whole, not its first letter, with
    the allowed initials: an identity whose user part is one letter from a to
    k, in either case, is accepted, and an accepted identity has a user part
    of exactly one code unit - an empty user part and every user part of two
    or more code units are refused. *)
Theorem allowsNamesA_K_single_unit (email : EmailObject) :
  exists accepted,
    emailValidatorServiceAllowsNamesA_K.isValid email = Normal accepted
    /\ (forall c, Email.getUserPart email = Some (String c "") -> letterAK c = true ->
                  accepted = true)
    /\ (accepted = true -> exists c, Email.getUserPart email = Some (String c "")).
Proof.
  unfold emailValidatorServiceAllowsNamesA_K.isValid.
  destruct (getUserPart_defined email) as (userPart & ->).
  eexists. split; [reflexivity |].
  destruct userPart as [|c [|c' rest]].
  - split.
    + intros c H. discriminate H.
    + intros H%bool_decide_eq_true%allowedInitials_length. discriminate H.
  - rewrite allowedInitials_single. split.
    + intros c0 H Hc. now injection H as ->.
    + intros _. now exists c.
  - split.
    + intros c0 H. discriminate H.
    + intros H%bool_decide_eq_true%allowedInitials_length.
      cbn [Js.toUpperCase] in H. rewrite !length_app in H.
      pose proof (toUpperCaseUnit_length c). pose proof (toUpperCaseUnit_length c'). lia.
Qed.

Example allowsNamesA_K_examples :
  emailValidatorServiceAllowsNamesA_K.isValid (mkEmail "a@example.com") = Normal true
  /\ emailValidatorServiceAllowsNamesA_K.isValid (mkEmail "k@example.com") = Normal true
  /\ emailValidatorServiceAllowsNamesA_K.isValid (mkEmail "alice@example.com") = Normal false
  /\ emailValidatorServiceAllowsNamesA_K.isValid (mkEmail "l@example.com") = Normal false.
Proof. repeat split; vm_compute; reflexivity. Qed.

(** X17. [EmailWithoutSpan.create] never rejects and never consults the
    gate: it accepts any string, stores it lower-cased - neither trimmed nor
    validated - and leaves the state untouched.  The object's [isValid] then
    answers what the gate's [isBlocked] answers on the stored value: with
    the mock adapter, [true] exactly when the lower-cased email is on the
    blocked list; with the gate of a Valkey repository, what [isBlocked]
    answers on the email itself. *)
Theorem EmailWithoutSpan_isValid_is_isBlocked {St : Type} (email : string)
    (gate : AntiSpamPort St) (st : St) (blockedEmails : list string)
    (setKey : string) (w : World Valkey.GlideClient) :
  EmailWithoutSpan.create email gate st
    = (Normal (EmailWithoutSpan.constructor email gate), st)
  /\ EmailWithoutSpan.getValue (EmailWithoutSpan.constructor email gate) = Js.toLowerCase email
  /\ EmailWithoutSpan.isValid (EmailWithoutSpan.constructor email gate) st
     = isBlocked gate (Js.toLowerCase email) st
  /\ EmailWithoutSpan.isValid
       (EmailWithoutSpan.constructor email (MockAntiSpamAdapter blockedEmails)) st
     = (Normal (bool_decide (Js.toLowerCase email ∈ blockedEmails)), st)
  /\ EmailWithoutSpan.isValid
       (EmailWithoutSpan.constructor email
          (RepositoryAntiSpamAdapter (ValkeyBannedEmailRepository setKey))) w
     = isBlocked (RepositoryAntiSpamAdapter (ValkeyBannedEmailRepository setKey)) email w.
Proof.
  split; [reflexivity |]. split; [reflexivity |]. split; [reflexivity |]. split.
  - unfold EmailWithoutSpan.isValid, EmailWithoutSpan.constructor, MockAntiSpamAdapter.
    cbn. unfold mret, async_ret. do 2 f_equal.
    apply bool_decide_ext, elem_of_list_to_set.
  - unfold EmailWithoutSpan.isValid, EmailWithoutSpan.constructor.
    cbn [_antiSpamPort _value]. rewrite !isBlocked_eq.
    unfold isBanned, ValkeyBannedEmailRepository. now rewrite toLowerCase_idem.
Qed.
